(** * lawyer-bot-rag: the ingestion and query pipelines, embedded in Rocq

    The development follows the Python sources.

    The programs:
    - [py]             the [str] operations the code relies on;
    - [parser]         the [LegalDocument] dataclass (src/ingestion/parser.py);
    - [chunker]        [LegalChunker] (src/ingestion/chunker.py);
    - [hashlib]        SHA-256, the key derivation of the cache;
    - [effects]        remote services, the clock and exceptions: a state and
                       error monad over the state of the world and a trace of
                       the calls made;
    - [embedder]       [LegalEmbedder] (src/ingestion/embedder.py);
    - [run_ingestion]  the embedding cache (src/ingestion/run_ingestion.py);
    - [searcher]       [LegalSearcher] (src/retrieval/searcher.py);
    - [vakilbot]       [VakilBot] (src/rag/vakilbot.py).

    Then a scripted world to run them in, the vocabulary of the statements
    ([chunker_spec], [cache_spec], [vakilbot_spec]) and the properties
    ([chunker_props], [embedder_props], [cache_props], [vakilbot_props]).

    Text.  A Python [str] is modelled by the Rocq [string] of its bytes.
    Character classes ([\s], [A-Z], [str.strip], [str.lower]) are those of
    CPython on ASCII text; a byte above 127 is an ordinary character.
    Integers are unbounded ([Z]); floats are IEEE binary64 ([float]).
    Logging and [print] are left out. *)

From Stdlib Require Import ZArith NArith Lia List Bool Ascii String DecimalString Floats.
From Stdlib Require Import DecimalZ DecimalPos.
From stdpp Require Import gmap strings list fin_maps.

Local Open Scope Z_scope.

(* ===================================================================== *)
(** ** Python strings *)
(* ===================================================================== *)
Module py.

Definition newline : ascii := "010"%char.
Definition dquote : ascii := "034"%char.

(** [c.isspace()] and the regex class [\s] on ASCII characters: TAB..CR,
    FS..US and SPACE.  Texts are read byte by byte, so the whitespace
    characters outside ASCII ([more_spec.unicode_spaces]) are not in the
    class. *)
Definition isspace (c : ascii) : bool :=
  let n := N_of_ascii c in
  (((9 <=? n) && (n <=? 13)) || ((28 <=? n) && (n <=? 32)))%N.

(** The regex class [[A-Z]]. *)
Definition isupper (c : ascii) : bool :=
  let n := N_of_ascii c in ((65 <=? n) && (n <=? 90))%N.

(** The regex class [[a-z]]. *)
Definition islower (c : ascii) : bool :=
  let n := N_of_ascii c in ((97 <=? n) && (n <=? 122))%N.

(** The regex class [\d]. *)
Definition isdigit (c : ascii) : bool :=
  let n := N_of_ascii c in ((48 <=? n) && (n <=? 57))%N.

Definition lower_char (c : ascii) : ascii :=
  if isupper c then ascii_of_N (N_of_ascii c + 32) else c.

(** [s.lower()] *)
Fixpoint lower (s : string) : string :=
  match s with
  | EmptyString => EmptyString
  | String c s' => String (lower_char c) (lower s')
  end.

(** [s.replace(a, b)] for one-character [a] and [b]. *)
Fixpoint replace_char (a b : ascii) (s : string) : string :=
  match s with
  | EmptyString => EmptyString
  | String c s' => String (if Ascii.eqb c a then b else c) (replace_char a b s')
  end.

(** Truth value of a [str]: the empty string is falsy. *)
Definition truthy (s : string) : bool :=
  match s with EmptyString => false | String _ _ => true end.

(** Truth value of an [Optional[str]]: [None] and the empty string are falsy. *)
Definition truthy_opt (o : option string) : bool :=
  match o with Some s => truthy s | None => false end.

(** Truth value of an [Optional[int]]: [None] and [0] are falsy. *)
Definition truthy_int (o : option Z) : bool :=
  match o with Some z => negb (z =? 0) | None => false end.

(** [str(n)] for an [int]. *)
Definition str_of_int (z : Z) : string := NilZero.string_of_int (Z.to_int z).

(** What an f-string prints for an [Optional[str]] field. *)
Definition fmt_opt (o : option string) : string :=
  match o with Some s => s | None => "None" end.

Definition fmt_opt_int (o : option Z) : string :=
  match o with Some z => str_of_int z | None => "None" end.

(** [sep.join(parts)] *)
Definition join (sep : string) (parts : list string) : string :=
  String.concat sep parts.

(** [s.lstrip()], [s.rstrip()], [s.strip()] *)
Fixpoint lstrip (s : string) : string :=
  match s with
  | EmptyString => EmptyString
  | String c s' => if isspace c then lstrip s' else s
  end.

Fixpoint rstrip (s : string) : string :=
  match s with
  | EmptyString => EmptyString
  | String c s' =>
      match rstrip s' with
      | EmptyString => if isspace c then EmptyString else String c EmptyString
      | r => String c r
      end
  end.

Definition strip (s : string) : string := rstrip (lstrip s).

(** [needle in hay] *)
Fixpoint contains (needle hay : string) : bool :=
  String.prefix needle hay ||
  match hay with
  | EmptyString => false
  | String _ hay' => contains needle hay'
  end.

(** [len(s)] *)
Definition len (s : string) : Z := Z.of_nat (String.length s).

(** [s[n:]] *)
Fixpoint drop (n : nat) (s : string) : string :=
  match n, s with
  | O, _ => s
  | S n', String _ s' => drop n' s'
  | S _, EmptyString => EmptyString
  end.

End py.

(* ===================================================================== *)
(** ** src/ingestion/parser.py: the parsed section *)
(* ===================================================================== *)
Module parser.

Record LegalDocument := {
  content : string;
  source_file : string;
  act_name : string;
  act_year : option Z;
  chapter : option string;
  section_number : option string;
  section_title : option string;
  page_number : option Z;
  doc_type : string;
  tags : list string
}.

End parser.

(* ===================================================================== *)
(** ** src/ingestion/chunker.py *)
(* ===================================================================== *)
Module chunker.

Record Chunk := {
  chunk_id : string;
  content : string;
  chunk_index : Z;
  total_chunks : Z;
  act_name : string;
  act_year : option Z;
  chapter : option string;
  section_number : option string;
  section_title : option string;
  doc_type : string;
  tags : list string;
  source_file : string
}.

(** [LegalChunker.__init__]: the two budgets and the tiktoken encoder.  The
    encoder is a collaborator of the repository; it is kept as a field, a
    function from a text to its token ids (texts are taken free of the
    special-token markers that tiktoken refuses to encode). *)
Record LegalChunker := {
  max_tokens : Z;
  overlap_tokens : Z;
  encoder : string -> list N
}.

Definition count_tokens (self : LegalChunker) (text : string) : Z :=
  Z.of_nat (length (encoder self text)).

(** *** [_split_into_sentences] *)

(** The pattern has two alternatives: whitespace after one of [. ! ?] and
    before a capital letter, an opening parenthesis or a double quote; and
    whitespace between a closing and an opening parenthesis.  The lookbehind
    rejects a start inside a whitespace run and [\s+] is greedy, so a match is
    a maximal run of whitespace standing between [prev] and [next], when one of
    the alternatives accepts the pair. *)
Definition boundary (prev next : ascii) : bool :=
  ((Ascii.eqb prev "." || Ascii.eqb prev "!" || Ascii.eqb prev "?")
   && (py.isupper next || Ascii.eqb next "(" || Ascii.eqb next py.dquote))
  || (Ascii.eqb prev ")" && Ascii.eqb next "(").

(** [re.split(pattern, text)].  [prev] is the last character before the
    pending whitespace run [ws] (none at the start of the text), [cur] the
    piece read so far; both are kept reversed. *)
Fixpoint re_split_go (prev : option ascii) (cur ws : list ascii) (s : string)
  : list string :=
  match s with
  | EmptyString => [string_of_list_ascii (rev (ws ++ cur))]
  | String c s' =>
      if py.isspace c then re_split_go prev cur (c :: ws) s'
      else
        match ws, prev with
        | _ :: _, Some p =>
            if boundary p c
            then string_of_list_ascii (rev cur) :: re_split_go (Some c) [c] [] s'
            else re_split_go (Some c) (c :: ws ++ cur) [] s'
        | _, _ => re_split_go (Some c) (c :: ws ++ cur) [] s'
        end
  end.

Definition re_split (text : string) : list string := re_split_go None [] [] text.

Definition _split_into_sentences (text : string) : list string :=
  let sentences := re_split text in
  map py.strip (filter (fun s => py.truthy (py.strip s) = true) sentences).

(** *** [_build_section_header] *)
Definition _build_section_header (doc : parser.LegalDocument) : string :=
  let part0 :=
    "[" +:+ parser.act_name doc
      +:+ (if py.truthy_int (parser.act_year doc)
           then ", " +:+ py.fmt_opt_int (parser.act_year doc) else EmptyString)
      +:+ "]" in
  let parts1 :=
    if py.truthy_opt (parser.chapter doc)
    then ["Chapter: " +:+ py.fmt_opt (parser.chapter doc)] else [] in
  let parts2 :=
    if py.truthy_opt (parser.section_number doc) && py.truthy_opt (parser.section_title doc)
    then ["Section " +:+ py.fmt_opt (parser.section_number doc) +:+ ": "
            +:+ py.fmt_opt (parser.section_title doc)]
    else if py.truthy_opt (parser.section_number doc)
    then ["Section " +:+ py.fmt_opt (parser.section_number doc)]
    else [] in
  py.join " | " (part0 :: parts1 ++ parts2)
    +:+ String py.newline (String py.newline EmptyString).

(** *** [_make_chunk] *)
Definition _make_chunk (doc : parser.LegalDocument) (content : string)
    (chunk_index total_chunks : Z) : Chunk :=
  let chunk_id :=
    py.lower (py.replace_char " " "_"
      (parser.act_name doc +:+ "_" +:+ py.fmt_opt (parser.section_number doc)
         +:+ "_" +:+ py.str_of_int chunk_index)) in
  {| chunk_id := chunk_id;
     content := content;
     chunk_index := chunk_index;
     total_chunks := total_chunks;
     act_name := parser.act_name doc;
     act_year := parser.act_year doc;
     chapter := parser.chapter doc;
     section_number := parser.section_number doc;
     section_title := parser.section_title doc;
     doc_type := parser.doc_type doc;
     tags := parser.tags doc;
     source_file := parser.source_file doc |}.

(** [chunk.total_chunks = total] *)
Definition set_total_chunks (total : Z) (c : Chunk) : Chunk :=
  {| chunk_id := chunk_id c;
     content := content c;
     chunk_index := chunk_index c;
     total_chunks := total;
     act_name := act_name c;
     act_year := act_year c;
     chapter := chapter c;
     section_number := section_number c;
     section_title := section_title c;
     doc_type := doc_type c;
     tags := tags c;
     source_file := source_file c |}.

(** *** [chunk_document] *)

(** The overlap walk: [for sent in reversed(current_chunk_sentences)],
    called on the reversed list. *)
Fixpoint backtrack (self : LegalChunker) (rev_sentences : list string)
    (overlap_text : string) (overlap_count : Z) : string * Z :=
  match rev_sentences with
  | [] => (overlap_text, overlap_count)
  | sent :: rest =>
      if overlap_count + count_tokens self sent <? overlap_tokens self
      then backtrack self rest (sent +:+ " " +:+ overlap_text)
                     (overlap_count + count_tokens self sent)
      else (overlap_text, overlap_count)
  end.

(** The variables the [while] loop updates. *)
Record loop_state := {
  chunks : list Chunk;
  current_chunk_sentences : list string;
  current_token_count : Z;
  next_index : Z            (* the local [chunk_index] *)
}.

(** One iteration of [while i < len(sentences)], on [sentences[i]]. *)
Definition loop_body (self : LegalChunker) (doc : parser.LegalDocument)
    (section_header : string) (header_tokens : Z)
    (st : loop_state) (sentence : string) : loop_state :=
  let sentence_tokens := count_tokens self sentence in
  let st1 :=
    if (current_token_count st + sentence_tokens >? max_tokens self)
       && negb (match current_chunk_sentences st with [] => true | _ => false end)
    then
      let chunk_text := section_header +:+ py.join " " (current_chunk_sentences st) in
      let overlap_text :=
        fst (backtrack self (rev (current_chunk_sentences st)) EmptyString 0) in
      {| chunks := chunks st ++ [_make_chunk doc chunk_text (next_index st) (-1)];
         current_chunk_sentences :=
           if py.truthy overlap_text then [overlap_text] else [];
         current_token_count := header_tokens + count_tokens self overlap_text;
         next_index := next_index st + 1 |}
    else st in
  {| chunks := chunks st1;
     current_chunk_sentences := current_chunk_sentences st1 ++ [sentence];
     current_token_count := current_token_count st1 + sentence_tokens;
     next_index := next_index st1 |}.

Definition run_loop (self : LegalChunker) (doc : parser.LegalDocument)
    (section_header : string) (header_tokens : Z)
    (st : loop_state) (sentences : list string) : loop_state :=
  fold_left (loop_body self doc section_header header_tokens) sentences st.

Definition chunk_document (self : LegalChunker) (doc : parser.LegalDocument)
  : list Chunk :=
  let section_header := _build_section_header doc in
  let header_tokens := count_tokens self section_header in
  let content_tokens := count_tokens self (parser.content doc) in
  if content_tokens <=? max_tokens self
  then [_make_chunk doc (parser.content doc) 0 1]
  else
    let sentences := _split_into_sentences (parser.content doc) in
    let st := run_loop self doc section_header header_tokens
                {| chunks := []; current_chunk_sentences := [];
                   current_token_count := header_tokens; next_index := 0 |}
                sentences in
    let chunks :=
      match current_chunk_sentences st with
      | [] => chunks st
      | _ =>
          let chunk_text := section_header +:+ py.join " " (current_chunk_sentences st) in
          chunks st ++ [_make_chunk doc chunk_text (next_index st) (-1)]
      end in
    let total := Z.of_nat (length chunks) in
    map (set_total_chunks total) chunks.

(** [chunk_corpus]: the chunks of all documents, in order. *)
Definition chunk_corpus (self : LegalChunker) (documents : list parser.LegalDocument)
  : list Chunk :=
  concat (map (chunk_document self) documents).

(** *** Sample data *)

(** A byte-level encoder (one token per byte), used to run the chunker. *)
Definition byte_encoder (text : string) : list N :=
  map N_of_ascii (list_ascii_of_string text).

Definition it_act_66 (content : string) : parser.LegalDocument :=
  {| parser.content := content;
     parser.source_file := "it-act-2020.pdf";
     parser.act_name := "IT Act";
     parser.act_year := Some 2000;
     parser.chapter := None;
     parser.section_number := Some "66";
     parser.section_title := Some "Hacking";
     parser.page_number := Some 12;
     parser.doc_type := "statute";
     parser.tags := ["cybercrime"] |}.

End chunker.

(* ===================================================================== *)
(** ** hashlib: SHA-256 *)
(* ===================================================================== *)
(** 32-bit words are integers below 2^32; additions wrap around. *)
Module hashlib.

Definition add32 (a b : Z) : Z := (a + b) mod 2 ^ 32.
Definition rotr (n x : Z) : Z :=
  Z.lor (Z.shiftr x n) ((Z.shiftl x (32 - n)) mod 2 ^ 32).
Definition shr (n x : Z) : Z := Z.shiftr x n.
Definition not32 (x : Z) : Z := Z.lxor x 0xffffffff.

Definition Ch (x y z : Z) : Z := Z.lxor (Z.land x y) (Z.land (not32 x) z).
Definition Maj (x y z : Z) : Z :=
  Z.lxor (Z.lxor (Z.land x y) (Z.land x z)) (Z.land y z).
Definition Sigma0 (x : Z) : Z := Z.lxor (Z.lxor (rotr 2 x) (rotr 13 x)) (rotr 22 x).
Definition Sigma1 (x : Z) : Z := Z.lxor (Z.lxor (rotr 6 x) (rotr 11 x)) (rotr 25 x).
Definition sigma0 (x : Z) : Z := Z.lxor (Z.lxor (rotr 7 x) (rotr 18 x)) (shr 3 x).
Definition sigma1 (x : Z) : Z := Z.lxor (Z.lxor (rotr 17 x) (rotr 19 x)) (shr 10 x).

(** The round constants and the initial hash value are not tabulated: they
    are the first 32 bits of the fractional parts of the cube roots of the
    first 64 primes, and of the square roots of the first 8. *)
Definition is_prime (n : Z) : bool :=
  (1 <? n) && forallb (fun d => negb (n mod d =? 0))
                (filter (fun d => d * d <= n) (map Z.of_nat (seq 2 20))).

Definition primes : list Z := filter (fun n => is_prime n = true) (map Z.of_nat (seq 2 310)).

(** The integer cube root of a number below 2^105, bit by bit. *)
Definition cube_root (n : Z) : Z :=
  fold_left (fun r b => let r' := r + 2 ^ Z.of_nat b in
                        if r' * r' * r' <=? n then r' else r)
            (rev (seq 0 35)) 0.

Definition K : list Z :=
  Eval vm_compute in map (fun p => cube_root (p * 2 ^ 96) mod 2 ^ 32) primes.

Definition H0 : list Z :=
  Eval vm_compute in map (fun p => Z.sqrt (p * 2 ^ 64) mod 2 ^ 32) (firstn 8 primes).

(** Padding: the byte 0x80, zeros up to 56 modulo 64, the bit length on 8 bytes. *)
Definition be_bytes (n : nat) (x : Z) : list Z :=
  map (fun i => Z.shiftr x (8 * Z.of_nat i) mod 256) (rev (seq 0 n)).

Definition pad (msg : list Z) : list Z :=
  let l := Z.of_nat (length msg) in
  let zeros := Z.to_nat ((55 - l) mod 64) in
  msg ++ [0x80] ++ repeat 0 zeros ++ be_bytes 8 (8 * l).

Fixpoint words (bytes : list Z) : list Z :=
  match bytes with
  | a :: b :: c :: d :: rest =>
      (Z.shiftl a 24 + Z.shiftl b 16 + Z.shiftl c 8 + d) :: words rest
  | _ => []
  end.

(** The message schedule, latest word first. *)
Fixpoint schedule (n : nat) (w_rev : list Z) : list Z :=
  match n with
  | O => w_rev
  | S n' =>
      let w := add32 (add32 (sigma1 (nth 1 w_rev 0)) (nth 6 w_rev 0))
                     (add32 (sigma0 (nth 14 w_rev 0)) (nth 15 w_rev 0)) in
      schedule n' (w :: w_rev)
  end.

Record regs := { ra : Z; rb : Z; rc : Z; rd : Z; re : Z; rf : Z; rg : Z; rh : Z }.

Definition round (r : regs) (kw : Z * Z) : regs :=
  let t1 := add32 (add32 (add32 (rh r) (Sigma1 (re r))) (Ch (re r) (rf r) (rg r)))
                  (add32 (fst kw) (snd kw)) in
  let t2 := add32 (Sigma0 (ra r)) (Maj (ra r) (rb r) (rc r)) in
  {| ra := add32 t1 t2; rb := ra r; rc := rb r; rd := rc r;
     re := add32 (rd r) t1; rf := re r; rg := rf r; rh := rg r |}.

Definition compress (h : list Z) (block : list Z) : list Z :=
  match h with
  | [a; b; c; d; e; f; g; hh] =>
      let w := rev (schedule 48 (rev (words block))) in
      let r := fold_left round (combine K w)
                 {| ra := a; rb := b; rc := c; rd := d;
                    re := e; rf := f; rg := g; rh := hh |} in
      [add32 a (ra r); add32 b (rb r); add32 c (rc r); add32 d (rd r);
       add32 e (re r); add32 f (rf r); add32 g (rg r); add32 hh (rh r)]
  | _ => h
  end.

Fixpoint blocks (n : nat) (h : list Z) (bytes : list Z) : list Z :=
  match n with
  | O => h
  | S n' => blocks n' (compress h (firstn 64 bytes)) (skipn 64 bytes)
  end.

Definition sha256 (msg : list Z) : list Z :=
  let p := pad msg in blocks (length p / 64) H0 p.

Definition hex_digit (x : Z) : ascii :=
  if x <? 10 then ascii_of_N (Z.to_N (48 + x)) else ascii_of_N (Z.to_N (87 + x)).

Definition hex_word (w : Z) : string :=
  string_of_list_ascii
    (map (fun i => hex_digit (Z.shiftr w (4 * Z.of_nat i) mod 16)) (rev (seq 0 8))).

(** [hashlib.sha256(data).hexdigest()] *)
Definition sha256_hexdigest (data : string) : string :=
  String.concat EmptyString
    (map hex_word (sha256 (map (fun c => Z.of_N (N_of_ascii c)) (list_ascii_of_string data)))).

End hashlib.

(* ===================================================================== *)
(** ** The outside world: remote services, the clock, exceptions *)
(* ===================================================================== *)
Module effects.

(** A raised [Exception]. *)
Record exn := { exn_type : string; exn_msg : string }.

(** An embedding: a list of Python floats (IEEE binary64). *)
Definition vector : Type := list float.

(** The argument of [time.sleep]. *)
Inductive seconds :=
| IntSeconds (n : Z)
| FloatSeconds (x : float).

(** One clause of the Elasticsearch filter list. *)
Inductive filter_clause :=
| Term (field value : string)
| Terms (field : string) (values : list string)
| Range (field : string) (gte lte : Z).

(** The parts of the search body that vary from call to call. *)
Record query_body := {
  body_size : Z;
  body_multi_match_query : string;
  body_filter : list filter_clause;
  body_knn_query_vector : vector;
  body_knn_k : Z;
  body_knn_num_candidates : Z;
  body_rrf_window_size : Z;
  body_rrf_rank_constant : Z
}.

(** [hit["_source"]] with the keys [_format_results] reads ([None] when a key
    is missing), [hit["_score"]] and [hit["highlight"]["content"]]. *)
Record hit := {
  hit_score : float;
  src_chunk_id : option string;
  src_content : option string;
  src_act_name : option string;
  src_act_year : option Z;
  src_section_number : option string;
  src_section_title : option string;
  src_chapter : option string;
  src_doc_type : option string;
  src_tags : list string;
  hit_highlight : list string
}.

(** A chat message: role and content. *)
Record message := { role : string; msg_content : string }.

Record chat_request := {
  req_model : string;
  req_messages : list message;
  req_max_tokens : Z;
  req_temperature : float;
  req_stream : bool
}.

(** What the program does to the outside world, in order. *)
Inductive event :=
| EmbeddingsCreate (model : string) (input : list string)
| LocalEncode (sentences : list string)
| Sleep (s : seconds)
| ChatCreate (req : chat_request)
| EsSearch (index : string) (body : query_body).

(** The collaborators.  Each answers a request from its current state [W]
    with a result or an exception, and moves to a new state.
    - [embeddings_create]: [client.embeddings.create], the embeddings of
      [response.data] in order;
    - [local_encode]: [local_model.encode(...).tolist()];
    - [chat_create]: [client.chat.completions.create] without streaming, the
      content of the first choice;
    - [chat_stream]: the same with [stream=True], [delta.content] of every
      streamed chunk;
    - [es_search]: [es.search], the list [response["hits"]["hits"]]. *)
Record Services (W : Type) := {
  embeddings_create : string -> list string -> W -> (exn + list vector) * W;
  local_encode : list string -> W -> (exn + list vector) * W;
  chat_create : chat_request -> W -> (exn + string) * W;
  chat_stream : chat_request -> W -> (exn + list (option string)) * W;
  es_search : string -> query_body -> W -> (exn + list hit) * W
}.
Arguments embeddings_create {W}.
Arguments local_encode {W}.
Arguments chat_create {W}.
Arguments chat_stream {W}.
Arguments es_search {W}.

(** Computations: a state of the world and the trace of events so far go in;
    a value or an exception comes out, with the new state and trace. *)
Definition M (W A : Type) : Type :=
  W * list event -> (exn + A) * (W * list event).

Section monad.
Context {W : Type}.

Definition ret {A} (a : A) : M W A := fun s => (inr a, s).

Definition bind {A B} (c : M W A) (k : A -> M W B) : M W B :=
  fun s =>
    match c s with
    | (inr a, s') => k a s'
    | (inl e, s') => (inl e, s')
    end.

(** [raise e] *)
Definition raise {A} (e : exn) : M W A := fun s => (inl e, s).

(** [try: c  except Exception as e: handler(e)] *)
Definition try_except {A} (c : M W A) (handler : exn -> M W A) : M W A :=
  fun s =>
    match c s with
    | (inr a, s') => (inr a, s')
    | (inl e, s') => handler e s'
    end.

(** Record an event, then let the service answer. *)
Definition call {A} (ev : event) (service : W -> (exn + A) * W) : M W A :=
  fun s =>
    let (r, w') := service (fst s) in (r, (w', snd s ++ [ev])).

(** [time.sleep(s)] *)
Definition sleep (s : seconds) : M W unit :=
  fun st => (inr tt, (fst st, snd st ++ [Sleep s])).
End monad.

Notation "'let*' x ':=' c 'in' k" := (bind c (fun x => k))
  (at level 10, x name, c at level 100, k at level 200).
Notation "c1 ';;' c2" := (bind c1 (fun _ => c2))
  (at level 100, c2 at level 200, right associativity).

End effects.

(* ===================================================================== *)
(** ** src/ingestion/embedder.py *)
(* ===================================================================== *)
Module embedder.
Import effects.

(** [LegalEmbedder.__init__]; the OpenAI client and the local model are the
    services of the world. *)
Record LegalEmbedder := {
  model : string;
  batch_size : Z;
  use_local : bool
}.

Section with_services.
Context {W : Type} (svc : Services W).

(** [raise last_err]; raising [None] is a [TypeError]. *)
Definition raise_last {A} (last_err : option exn) : M W A :=
  match last_err with
  | Some e => raise e
  | None => raise {| exn_type := "TypeError";
                     exn_msg := "exceptions must derive from BaseException" |}
  end.

(** The body of [for attempt in range(3)], over the attempts still to run. *)
Fixpoint retry_loop (self : LegalEmbedder) (texts : list string)
    (attempts : list Z) (last_err : option exn) : M W (list vector) :=
  match attempts with
  | [] => raise_last last_err
  | attempt :: rest =>
      try_except
        (call (EmbeddingsCreate (model self) texts)
              (embeddings_create svc (model self) texts))
        (fun e =>
           let wait := 4 * 2 ^ attempt in
           sleep (IntSeconds wait) ;;
           retry_loop self texts rest (Some e))
  end.

Definition _embed_batch_openai (self : LegalEmbedder) (texts : list string)
  : M W (list vector) :=
  retry_loop self texts [0; 1; 2] None.

Definition _embed_batch_local (self : LegalEmbedder) (texts : list string)
  : M W (list vector) :=
  let prefixed := map (fun text => "passage: " +:+ text) texts in
  call (LocalEncode prefixed) (local_encode svc prefixed).

(** [texts[i:j]] for [0 <= i <= j]. *)
Definition slice {A} (l : list A) (i j : Z) : list A :=
  firstn (Z.to_nat (j - i)) (skipn (Z.to_nat i) l).

(** The iterations of [for i in range(0, len(texts), batch_size)] from [i]
    on, for a positive [batch_size]; [fuel] bounds their number. *)
Fixpoint embed_texts_loop (self : LegalEmbedder) (texts : list string)
    (fuel : nat) (i : Z) (all_embeddings : list vector) : M W (list vector) :=
  if i <? Z.of_nat (length texts) then
    match fuel with
    | O => raise {| exn_type := "OutOfFuel"; exn_msg := EmptyString |}
    | S fuel' =>
        let batch := slice texts i (i + batch_size self) in
        let* batch_embeddings :=
          (if use_local self then _embed_batch_local self batch
           else _embed_batch_openai self batch) in
        let all_embeddings := all_embeddings ++ batch_embeddings in
        (if negb (use_local self)
            && (i + batch_size self <? Z.of_nat (length texts))
         then sleep (FloatSeconds 0x1.999999999999ap-4%float) else ret tt) ;;
        embed_texts_loop self texts fuel' (i + batch_size self) all_embeddings
    end
  else ret all_embeddings.

(** [embed_texts]: [range] rejects a zero step and is empty for a negative
    one. *)
Definition embed_texts (self : LegalEmbedder) (texts : list string)
  : M W (list vector) :=
  if batch_size self =? 0
  then raise {| exn_type := "ValueError";
                exn_msg := "range() arg 3 must not be zero" |}
  else if batch_size self <? 0 then ret []
  else embed_texts_loop self texts (length texts) 0 [].

(** [embed_query]; [[0]] on an empty list is an [IndexError]. *)
Definition embed_query (self : LegalEmbedder) (query : string) : M W vector :=
  let* embeddings :=
    (if use_local self
     then let query_prefixed := "query: " +:+ query in
          call (LocalEncode [query_prefixed]) (local_encode svc [query_prefixed])
     else call (EmbeddingsCreate (model self) [query])
               (embeddings_create svc (model self) [query])) in
  match embeddings with
  | v :: _ => ret v
  | [] => raise {| exn_type := "IndexError"; exn_msg := "list index out of range" |}
  end.

End with_services.

End embedder.

(* ===================================================================== *)
(** ** src/ingestion/run_ingestion.py: the embedding cache *)
(* ===================================================================== *)
Module run_ingestion.
Import effects.

(** [_text_hash]: the key of a text is the SHA-256 of its bytes, in hex. *)
Definition _text_hash (text : string) : string := hashlib.sha256_hexdigest text.
Arguments _text_hash : simpl never.

(** The two accesses the code makes to the cache dictionary. *)
Definition cache_lookup (cache : gmap string vector) (text : string)
  : option vector :=
  cache !! _text_hash text.

Definition cache_store (cache : gmap string vector) (text : string) (v : vector)
  : gmap string vector :=
  <[_text_hash text := v]> cache.

(** The variables of the first loop of [embed_with_cache]. *)
Record scan_state := {
  results : list (option vector);
  miss_indices : list nat;
  miss_texts : list string
}.

(** [for i, text in enumerate(texts)] *)
Definition scan_body (cache : gmap string vector) (st : scan_state)
    (it : nat * string) : scan_state :=
  let (i, text) := it in
  let h := _text_hash text in
  match cache !! h with
  | Some v =>
      {| results := <[i := Some v]> (results st);
         miss_indices := miss_indices st;
         miss_texts := miss_texts st |}
  | None =>
      {| results := results st;
         miss_indices := miss_indices st ++ [i];
         miss_texts := miss_texts st ++ [text] |}
  end.

(** [enumerate(l)] *)
Definition enumerate {A} (l : list A) : list (nat * A) :=
  combine (seq 0 (length l)) l.

(** [for idx, text, emb in zip(miss_indices, miss_texts, new_embeddings)] *)
Definition fill_body (st : gmap string vector * list (option vector))
    (it : nat * (string * vector)) : gmap string vector * list (option vector) :=
  let '(idx, (text, emb)) := it in
  (<[_text_hash text := emb]> (fst st), <[idx := Some emb]> (snd st)).

(** [embed_with_cache(texts, embedder, cache)].  [embedder.embed_texts] is the
    argument [embed_texts]; the dictionary is passed in and its final value
    is returned with the results (an entry left at [None] is a position the
    code never filled). *)
Definition embed_with_cache {W : Type} (texts : list string)
    (embed_texts : list string -> M W (list vector))
    (cache : gmap string vector)
  : M W (list (option vector) * gmap string vector) :=
  let st := fold_left (scan_body cache) (enumerate texts)
              {| results := repeat None (length texts);
                 miss_indices := []; miss_texts := [] |} in
  match miss_texts st with
  | _ :: _ =>
      let* new_embeddings := embed_texts (miss_texts st) in
      let '(cache', results') :=
        fold_left fill_body
          (combine (miss_indices st) (combine (miss_texts st) new_embeddings))
          (cache, results st) in
      ret (results', cache')
  | [] => ret (results st, cache)
  end.

End run_ingestion.

(* ===================================================================== *)
(** ** src/retrieval/searcher.py *)
(* ===================================================================== *)
Module searcher.
Import effects.

Record LegalSearcher := {
  index_name : string;
  the_embedder : embedder.LegalEmbedder     (* [self.embedder] *)
}.

(** One formatted search result (the dictionary [_format_results] builds). *)
Record result := {
  score : float;
  chunk_id : option string;
  content : option string;
  act_name : option string;
  act_year : option Z;
  section_number : option string;
  section_title : option string;
  chapter : option string;
  doc_type : option string;
  tags : list string;
  highlights : list string
}.

(** Truth value of an [Optional[list]]: [None] and the empty list are falsy. *)
Definition truthy_list {A} (o : option (list A)) : bool :=
  match o with Some (_ :: _) => true | _ => false end.

Definition _build_filters (act_filter doc_type_filter : option string)
    (tag_filter : option (list string)) (year_range : option (Z * Z))
  : list filter_clause :=
  (if py.truthy_opt act_filter
   then [Term "act_name" (py.fmt_opt act_filter)] else [])
  ++ (if py.truthy_opt doc_type_filter
      then [Term "doc_type" (py.fmt_opt doc_type_filter)] else [])
  ++ (if truthy_list tag_filter
      then [Terms "tags" (match tag_filter with Some l => l | None => [] end)]
      else [])
  ++ (match year_range with
      | Some (lo, hi) => [Range "act_year" lo hi]
      | None => []
      end).

Definition _format_results (hits : list hit) : list result :=
  map (fun h =>
         {| score := hit_score h;
            chunk_id := src_chunk_id h;
            content := src_content h;
            act_name := src_act_name h;
            act_year := src_act_year h;
            section_number := src_section_number h;
            section_title := src_section_title h;
            chapter := src_chapter h;
            doc_type := src_doc_type h;
            tags := src_tags h;
            highlights := hit_highlight h |}) hits.

Section with_services.
Context {W : Type} (svc : Services W).

Definition hybrid_search (self : LegalSearcher) (query : string) (k : Z)
  (act_filter doc_type_filter : option string)
  (tag_filter : option (list string)) (year_range : option (Z * Z))
: M W (list result) :=
let* query_vector := embedder.embed_query svc (the_embedder self) query in
let filters := _build_filters act_filter doc_type_filter tag_filter year_range in
let query_body :=
  {| body_size := k;
     body_multi_match_query := query;
     body_filter := filters;
     body_knn_query_vector := query_vector;
     body_knn_k := k * 2;
     body_knn_num_candidates := k * 10;
     body_rrf_window_size := k * 3;
     body_rrf_rank_constant := 60 |} in
let* hits := call (EsSearch (index_name self) query_body)
                  (es_search svc (index_name self) query_body) in
ret (_format_results hits).

End with_services.

End searcher.

(* ===================================================================== *)
(** ** src/rag/vakilbot.py *)
(* ===================================================================== *)
Module vakilbot.
Import effects.

Definition SYSTEM_PROMPT : string := "You are VakilBot, an expert AI legal assistant specializing in Indian law.

You provide accurate, clear legal information based STRICTLY on the Indian legal documents provided to you as context.

IMPORTANT GUIDELINES:
1. Only use information from the provided legal context sections
2. Always cite the specific Act and Section number you're referencing
3. Use clear, accessible language — avoid excessive legal jargon
4. If the context doesn't contain sufficient information, say so clearly
5. Always add a disclaimer that this is legal information, not legal advice
6. For criminal matters, always mention seeking professional counsel
7. Format your response with:
   - Direct answer first
   - Legal basis (cite section/act)
   - Practical implications
   - Disclaimer

NEVER fabricate legal provisions, penalties, or case citations.".

Record VakilBot := {
  the_searcher : searcher.LegalSearcher;    (* [self.searcher] *)
  llm_model : string;
  k : Z;
  rerank : bool
}.

Record intent := {
  act_filter : option string;
  tag_filter : option (list string);
  section_lookup : option string;
  detected_act_name : option string
}.

(** *** [_detect_intent] *)

(** The longest prefix of [s] made of characters in the class [p], and the
    rest. *)
Fixpoint span (p : ascii -> bool) (s : string) : string * string :=
  match s with
  | String c s' =>
      if p c then let (a, b) := span p s' in (String c a, b)
      else (EmptyString, s)
  | EmptyString => (EmptyString, EmptyString)
  end.

(** A match of [section\s+(\d+[a-z]?)] starting at the head of [s]: its
    group.  Whitespace and digits are taken greedily; a shorter run of
    whitespace is followed by whitespace and cannot help. *)
Definition section_match_here (s : string) : option string :=
  if String.prefix "section" s then
    let (ws, after_ws) := span py.isspace (py.drop 7 s) in
    let (digits, after_digits) := span py.isdigit after_ws in
    if py.truthy ws && py.truthy digits then
      Some (digits +:+ match after_digits with
                       | String c _ =>
                           if py.islower c then String c EmptyString else EmptyString
                       | EmptyString => EmptyString
                       end)
    else None
  else None.

(** [re.search]: the leftmost match. *)
Fixpoint section_search (s : string) : option string :=
  match section_match_here s with
  | Some g => Some g
  | None =>
      match s with
      | String _ s' => section_search s'
      | EmptyString => None
      end
  end.

Definition act_hints : list (string * string) :=
  [("bns", "Bharatiya Nyay Sanhita, 2023");
   ("bnss", "Bharatiya Nagrik Suraksha Sanhita, 2023");
   ("companiesvact", "Companies Act, 2013");
   ("constitution", "The Constitution of India, 1950");
   ("consumer protection act", "Consumer Protection Act, 2019");
   ("it act", "Information Technology Act, 2020");
   ("pocso act", "Protection of Children from Sexual Offences Act, 2012");
   ("labour laws", "Labour Laws, 2025");
   ("domestic violence", "Women Protection Act, 2005")].

Definition tag_map : list (string * list string) :=
  [("cybercrime", ["cybercrime"; "hacking"; "data"; "computer fraud"]);
   ("criminal", ["murder"; "theft"; "assault"; "robbery"; "fraud"]);
   ("family", ["divorce"; "marriage"; "custody"; "alimony"]);
   ("corporate", ["company"; "director"; "shareholder"; "incorporation"])].

(** The first hint contained in the query wins. *)
Fixpoint detect_act (hints : list (string * string)) (query_lower : string)
  : option string :=
  match hints with
  | [] => None
  | (hint, act_name) :: rest =>
      if py.contains hint query_lower then Some act_name
      else detect_act rest query_lower
  end.

Definition _detect_intent (query : string) : intent :=
  let query_lower := py.lower query in
  let section_match := section_search query_lower in
  let detected_act := detect_act act_hints query_lower in
  let detected_tags :=
    map fst
      (filter (fun entry : string * list string =>
                 existsb (fun kw => py.contains kw query_lower) (snd entry) = true)
              tag_map) in
  {| act_filter := detected_act;
     tag_filter := match detected_tags with [] => None | _ => Some detected_tags end;
     section_lookup := section_match;
     detected_act_name := detected_act |}.

(** *** [_build_context] *)

Definition citation_of (r : searcher.result) : string :=
  "[" +:+ py.fmt_opt (searcher.act_name r)
    +:+ (if py.truthy_int (searcher.act_year r)
         then ", " +:+ py.fmt_opt_int (searcher.act_year r) else EmptyString)
    +:+ "]"
    +:+ (if py.truthy_opt (searcher.section_number r)
         then " Section " +:+ py.fmt_opt (searcher.section_number r)
              +:+ (if py.truthy_opt (searcher.section_title r)
                   then " — " +:+ py.fmt_opt (searcher.section_title r)
                   else EmptyString)
         else EmptyString).

Definition nl : string := String py.newline EmptyString.

Definition _build_context (results : list searcher.result) : string :=
  match results with
  | [] => "No relevant legal provisions found."
  | _ =>
      let context_parts :=
        map (fun ir : nat * searcher.result =>
               "--- Source " +:+ py.str_of_int (Z.of_nat (fst ir) + 1) +:+ ": "
                 +:+ citation_of (snd ir) +:+ " ---" +:+ nl
                 +:+ py.fmt_opt (searcher.content (snd ir)) +:+ nl)
            (run_ingestion.enumerate results) in
      py.join nl context_parts
  end.

(** *** The source list appended to every answer *)

Definition sources_header : string :=
  nl +:+ nl +:+ "---" +:+ nl +:+ "**Sources Retrieved:**" +:+ nl.

(** The lines for [results[:3]], numbered from 1. *)
Definition source_lines (results : list searcher.result) : list string :=
  map (fun ir : nat * searcher.result =>
         let citation :=
           py.fmt_opt (searcher.act_name (snd ir))
             +:+ (if py.truthy_opt (searcher.section_number (snd ir))
                  then ", Section " +:+ py.fmt_opt (searcher.section_number (snd ir))
                  else EmptyString) in
         py.str_of_int (Z.of_nat (fst ir) + 1) +:+ ". " +:+ citation +:+ nl)
      (run_ingestion.enumerate (firstn 3 results)).

(** What [answer] returns: a generator ([stream=True]), here the computation
    that yields its items when it is consumed to the end, or the text. *)
Inductive answer_result (W : Type) :=
| Streaming (generator : M W (list string))
| Complete (text : string).
Arguments Streaming {W}.
Arguments Complete {W}.

Section with_services.
Context {W : Type} (svc : Services W).

Definition rewrite_request (query : string) : chat_request :=
{| req_model := "gpt-4o-mini";
   req_messages :=
     [{| role := "system";
         msg_content := "You are a legal query optimizer. Rewrite the user's query to be more effective for searching Indian legal documents. Expand abbreviations, add legal terminology, but keep it concise (max 2 sentences)." |};
      {| role := "user";
         msg_content := "Original query: " +:+ query +:+ nl +:+ nl
                          +:+ "Rewritten query:" |}];
   req_max_tokens := 150;
   req_temperature := 0%float;
   req_stream := false |}.

Definition _rewrite_query (self : VakilBot) (query : string) : M W string :=
let* response_content :=
  call (ChatCreate (rewrite_request query))
       (chat_create svc (rewrite_request query)) in
ret (py.strip response_content).

Definition generation_request (self : VakilBot) (messages : list message)
  (stream : bool) : chat_request :=
{| req_model := llm_model self;
   req_messages := messages;
   req_max_tokens := 1000;
   req_temperature := 0x1.999999999999ap-4%float;
   req_stream := stream |}.

Definition _stream_response (self : VakilBot) (messages : list message)
  (results : list searcher.result) : M W (list string) :=
let* stream :=
  call (ChatCreate (generation_request self messages true))
       (chat_stream svc (generation_request self messages true)) in
let tokens :=
  omap (fun delta : option string =>
          if py.truthy_opt delta then delta else None) stream in
ret (tokens ++ [sources_header] ++ source_lines results).

Definition _generate_response (self : VakilBot) (messages : list message)
  (results : list searcher.result) : M W string :=
let* answer :=
  call (ChatCreate (generation_request self messages false))
       (chat_create svc (generation_request self messages false)) in
let sources := sources_header +:+ py.join EmptyString (source_lines results) in
ret (answer +:+ sources).

Definition user_prompt (query context : string) : string :=
"User Question: " +:+ query +:+ nl +:+ nl
  +:+ "Legal Context:" +:+ nl
  +:+ context +:+ nl +:+ nl
  +:+ "Please provide a comprehensive answer based strictly on the above legal context.".

Definition answer (self : VakilBot) (query : string)
  (act_filter_arg : option string) (stream : bool) : M W (answer_result W) :=
(* Step 1: intent detection and query rewriting *)
let intent := _detect_intent query in
let* rewritten_query := _rewrite_query self query in
let effective_act_filter :=
  if py.truthy_opt act_filter_arg then act_filter_arg else act_filter intent in
(* Step 2: hybrid retrieval *)
let* results :=
  searcher.hybrid_search svc (the_searcher self) rewritten_query (k self)
    effective_act_filter None (tag_filter intent) None in
(* Fallback: if filtered search returns nothing, do unfiltered *)
let* results :=
  (if match results with [] => true | _ => false end
      && py.truthy_opt effective_act_filter
   then searcher.hybrid_search svc (the_searcher self) rewritten_query (k self)
          None None None None
   else ret results) in
(* Step 3: build context; step 4: build prompt *)
let context := _build_context results in
let messages :=
  [{| role := "system"; msg_content := SYSTEM_PROMPT |};
   {| role := "user"; msg_content := user_prompt query context |}] in
(* Step 5: generate response *)
if stream then ret (Streaming (_stream_response self messages results))
else let* text := _generate_response self messages results in
     ret (Complete text).

End with_services.

End vakilbot.

(* ===================================================================== *)
(** ** A scripted world, to run the code *)
(* ===================================================================== *)
Module scripted.
Import effects.

(** The answers each service will give, in order; a service whose script is
    used up refuses the connection. *)
Record script := {
  embed_script : list (exn + list vector);
  encode_script : list (exn + list vector);
  chat_script : list (exn + string);
  stream_script : list (exn + list (option string));
  search_script : list (exn + list hit)
}.

Definition connection_error : exn :=
  {| exn_type := "APIConnectionError"; exn_msg := "Connection error." |}.

Definition rate_limit_error : exn :=
  {| exn_type := "RateLimitError"; exn_msg := "Rate limit reached." |}.

Definition next {A} (tape : list (exn + A)) : (exn + A) * list (exn + A) :=
  match tape with
  | r :: rest => (r, rest)
  | [] => (inl connection_error, [])
  end.

Definition services : Services script :=
  {| embeddings_create := fun _ _ w =>
       let (r, t) := next (embed_script w) in
       (r, {| embed_script := t; encode_script := encode_script w;
              chat_script := chat_script w; stream_script := stream_script w;
              search_script := search_script w |});
     local_encode := fun _ w =>
       let (r, t) := next (encode_script w) in
       (r, {| embed_script := embed_script w; encode_script := t;
              chat_script := chat_script w; stream_script := stream_script w;
              search_script := search_script w |});
     chat_create := fun _ w =>
       let (r, t) := next (chat_script w) in
       (r, {| embed_script := embed_script w; encode_script := encode_script w;
              chat_script := t; stream_script := stream_script w;
              search_script := search_script w |});
     chat_stream := fun _ w =>
       let (r, t) := next (stream_script w) in
       (r, {| embed_script := embed_script w; encode_script := encode_script w;
              chat_script := chat_script w; stream_script := t;
              search_script := search_script w |});
     es_search := fun _ _ w =>
       let (r, t) := next (search_script w) in
       (r, {| embed_script := embed_script w; encode_script := encode_script w;
              chat_script := chat_script w; stream_script := stream_script w;
              search_script := t |}) |}.

Definition silent : script :=
  {| embed_script := []; encode_script := []; chat_script := [];
     stream_script := []; search_script := [] |}.

Definition openai_embedder : embedder.LegalEmbedder :=
  {| embedder.model := "text-embedding-3-small";
     embedder.batch_size := 100;
     embedder.use_local := false |}.

End scripted.

(* ===================================================================== *)
(** ** Vocabulary of the chunker properties *)
(* ===================================================================== *)
Module chunker_spec.
Import chunker.

(** The budgets of [run_full_ingestion], with the byte-level encoder. *)
Definition small_chunker : LegalChunker :=
  {| max_tokens := 512; overlap_tokens := 64; encoder := byte_encoder |}.

(** [numbered cs]: the chunks carry the indices 0, 1, 2, ... in order. *)
Definition numbered (cs : list Chunk) : Prop :=
  map chunk_index cs = map Z.of_nat (seq 0 (length cs)).

(** The body of a chunk: its content with the header cut off. *)
Definition chunk_body (section_header : string) (c : Chunk) : string :=
  py.drop (String.length section_header) (content c).

Definition bodies (self : LegalChunker) (doc : parser.LegalDocument) : list string :=
  map (chunk_body (_build_section_header doc)) (chunk_document self doc).

(** [embeds ss t]: the strings [ss] occur in [t] one after the other, in
    order and without overlapping, with arbitrary text between them. *)
Inductive embeds : list string -> string -> Prop :=
| embeds_nil t : embeds [] t
| embeds_cons gap s ss t : embeds ss t -> embeds (s :: ss) (gap +:+ s +:+ t).

(** Two bodies share a sentence of the section. *)
Definition shares_a_sentence (sentences : list string) (b1 b2 : string) : Prop :=
  exists s, In s sentences /\ py.contains s b1 = true /\ py.contains s b2 = true.

(** The overlap the loop really provides between a chunk and its successor:
    the earlier body ends with a sentence [u] of the section, and when [u]
    has fewer than [overlap_tokens] tokens the later body repeats it (the
    re-prepended text ends with [u] and a space, and [join] adds a second
    space before the first new sentence). *)
Definition overlap_link (self : LegalChunker) (sentences : list string)
    (b1 b2 : string) : Prop :=
  exists u, In u sentences
    /\ (exists p, b1 = p +:+ u)
    /\ (count_tokens self u < overlap_tokens self ->
        exists o r, b2 = o +:+ u +:+ "  " +:+ r).

Definition linked (R : string -> string -> Prop) (bs : list string) : Prop :=
  forall (k : nat) (b1 b2 : string),
    bs !! k = Some b1 -> bs !! S k = Some b2 -> R b1 b2.

Definition closed_bodies (doc : parser.LegalDocument) (st : loop_state)
  : list string :=
  map (chunk_body (_build_section_header doc)) (chunks st).

Record loop_inv (self : LegalChunker) (doc : parser.LegalDocument)
    (ps : list string) (st : loop_state) : Prop := {
  inv_header :
    Forall (fun c => content c = _build_section_header doc
                                   +:+ chunk_body (_build_section_header doc) c)
           (chunks st);
  inv_cover :
    embeds ps (py.join EmptyString (closed_bodies doc st)
                 +:+ py.join " " (current_chunk_sentences st));
  inv_linked : linked (overlap_link self ps) (closed_bodies doc st);
  inv_pending : forall bl, last (closed_bodies doc st) = Some bl ->
    exists u, In u ps /\ (exists p, bl = p +:+ u)
      /\ (count_tokens self u < overlap_tokens self ->
          exists o fresh, fresh <> []
            /\ current_chunk_sentences st = (o +:+ u +:+ " ") :: fresh);
  inv_last :
    current_chunk_sentences st = []
    \/ exists xs u, current_chunk_sentences st = xs ++ [u] /\ In u ps
}.

(** A small budget under which a four-sentence section is cut in four. *)
Definition overlap_chunker : LegalChunker :=
  {| max_tokens := 60; overlap_tokens := 20; encoder := byte_encoder |}.

Definition overlap_doc : parser.LegalDocument :=
  it_act_66
    "Whoever hacks is punished. He pays a fine. (1) Imprisonment up to three years. (2) Or both.".

(** *** The overlap, piece by piece *)

(** The pieces of a chunk are the strings the loop joins with spaces: the
    text carried over from the chunk before, if any, then sentences. *)

(** The tokens of a list of pieces, each piece counted on its own. *)
Definition piece_tokens (self : LegalChunker) (pieces : list string) : Z :=
  fold_right (fun p acc => count_tokens self p + acc) 0 pieces.

(** The text that carries the pieces [kept] over to the next chunk: every
    piece followed by a space. *)
Definition carry (kept : list string) : string :=
  fold_right (fun p acc => p +:+ " " +:+ acc) EmptyString kept.

(** What the next chunk starts with. *)
Definition seed (kept : list string) : list string :=
  match kept with [] => [] | _ => [carry kept] end.

(** [overlap_suffix self pieces kept]: [kept] is the longest suffix of whole
    pieces of [pieces] whose tokens add up to less than [overlap_tokens]:
    taking the piece before it as well would reach the budget. *)
Definition overlap_suffix (self : LegalChunker) (pieces kept : list string) : Prop :=
  exists dropped,
    pieces = dropped ++ kept
    /\ (kept <> [] -> piece_tokens self kept < overlap_tokens self)
    /\ (forall d, last dropped = Some d ->
          overlap_tokens self <= piece_tokens self kept + count_tokens self d).

(** [chain_from self prev plists groups]: the piece lists [plists] of
    successive chunks, the chunk before them having the pieces [prev]: each
    is the overlap of its predecessor, carried as one piece, followed by its
    own group of new sentences. *)
Fixpoint chain_from (self : LegalChunker) (prev : list string)
    (plists groups : list (list string)) : Prop :=
  match plists, groups with
  | [], [] => True
  | pieces :: plists', group :: groups' =>
      (exists kept, overlap_suffix self prev kept /\ pieces = seed kept ++ group)
      /\ chain_from self pieces plists' groups'
  | _, _ => False
  end.

(** The chunks of a section, piece by piece: the bodies are the piece lists
    joined by spaces, the first piece list is the first group, every later
    one starts with the overlap of the one before, and the groups, none of
    them empty, make up the sentences in order. *)
Definition cut_with_overlap (self : LegalChunker) (sentences bodies : list string)
  : Prop :=
  exists plists groups,
    bodies = map (py.join " ") plists
    /\ chain_from self [] plists groups
    /\ concat groups = sentences
    /\ List.Forall (fun group => group <> []) groups.

(** The state of the loop once the sentences [ps] are consumed. *)
Definition chain_inv (self : LegalChunker) (doc : parser.LegalDocument)
    (ps : list string) (st : loop_state) : Prop :=
  exists plists groups fresh,
    closed_bodies doc st = map (py.join " ") plists
    /\ chain_from self [] plists groups
    /\ concat groups ++ fresh = ps
    /\ List.Forall (fun group => group <> []) groups
    /\ (exists kept, overlap_suffix self (List.last plists []) kept
          /\ current_chunk_sentences st = seed kept ++ fresh)
    /\ (current_chunk_sentences st = [] \/ fresh <> []).

(** The state of the loop when the header alone is over the budget and no
    sentence fits the overlap: one sentence is pending, the others are
    closed, one per chunk. *)
Definition single_inv (self : LegalChunker) (doc : parser.LegalDocument)
    (ps : list string) (st : loop_state) : Prop :=
  count_tokens self (_build_section_header doc) <= current_token_count st
  /\ ((ps = [] /\ current_chunk_sentences st = [] /\ closed_bodies doc st = [])
      \/ exists init u, ps = init ++ [u]
            /\ current_chunk_sentences st = [u] /\ closed_bodies doc st = init).

(** Budgets that no tokenizer can meet on the section below: the header
    alone has more than ten tokens and every sentence more than one. *)
Definition tight_chunker : LegalChunker :=
  {| max_tokens := 10; overlap_tokens := 2; encoder := byte_encoder |}.

(** The same budget with an overlap no sentence exceeds. *)
Definition generous_chunker : LegalChunker :=
  {| max_tokens := 10; overlap_tokens := 1000; encoder := byte_encoder |}.

Definition three_sentences : parser.LegalDocument :=
  it_act_66
    "Whoever hacks is punished. He pays a fine of one lakh. The court may order both.".

End chunker_spec.

(* ===================================================================== *)
(** ** Vocabulary of the cache properties *)
(* ===================================================================== *)
Module cache_spec.
Import effects run_ingestion.

(** The input texts that are not in the cache, in order, and their
    positions counted from [k]. *)
Fixpoint misses (cache : gmap string vector) (texts : list string) : list string :=
  match texts with
  | [] => []
  | t :: rest =>
      match cache_lookup cache t with
      | Some _ => misses cache rest
      | None => t :: misses cache rest
      end
  end.

Fixpoint miss_positions (cache : gmap string vector) (k : nat) (texts : list string)
  : list nat :=
  match texts with
  | [] => []
  | t :: rest =>
      match cache_lookup cache t with
      | Some _ => miss_positions cache (S k) rest
      | None => k :: miss_positions cache (S k) rest
      end
  end.

(** The result list in closed form: in input order, a cached text takes its
    cached vector and an uncached one takes the next new embedding. *)
Fixpoint merge (cache : gmap string vector) (texts : list string)
    (new_embeddings : list vector) : list (option vector) :=
  match texts with
  | [] => []
  | t :: rest =>
      match cache_lookup cache t with
      | Some v => Some v :: merge cache rest new_embeddings
      | None =>
          match new_embeddings with
          | e :: more => Some e :: merge cache rest more
          | [] => None :: merge cache rest []
          end
      end
  end.

(** Storing a list of (text, vector) pairs, first to last. *)
Definition store_all (cache : gmap string vector) (entries : list (string * vector))
  : gmap string vector :=
  fold_left (fun c entry => cache_store c (fst entry) (snd entry)) entries cache.

(** A cache holding two chunks. *)
Definition two_chunks : gmap string vector :=
  store_all ∅ [("Whoever hacks is punished.", [0.25%float; 0.5%float]);
               ("He pays a fine.", [0.75%float; 1%float])].

(** The cache a first run over two repealed sections leaves. *)
Definition two_repeals : gmap string vector :=
  store_all ∅ [("Omitted.", [0.25%float]); ("Repealed.", [0.5%float])].

(** A world whose embedding service answers the first request with two
    different vectors. *)
Definition two_vectors : scripted.script :=
  {| scripted.embed_script := [inr [[0.25%float]; [0.5%float]]];
     scripted.encode_script := []; scripted.chat_script := [];
     scripted.stream_script := []; scripted.search_script := [] |}.

(** What a call of [embed_with_cache] leaves behind. *)
Definition embed_with_cache_outcome {W : Type} (texts : list string)
    (embed_texts : list string -> M W (list vector))
    (cache : gmap string vector) (s : W * list event) : Prop :=
  match embed_with_cache texts embed_texts cache s with
  | (inr (res, cache'), s') =>
      length res = length texts
      /\ Forall (fun r : option vector => is_Some r) res
      /\ (forall (i : nat) t v, texts !! i = Some t ->
             cache_lookup cache t = Some v -> res !! i = Some (Some v))
      /\ (exists ne, res = merge cache texts ne
             /\ (misses cache texts = []
                 \/ embed_texts (misses cache texts) s = (inr ne, s')))
      /\ (forall (i : nat) t, texts !! i = Some t ->
             is_Some (cache' !! _text_hash t))
      /\ (forall (i : nat) t, texts !! i = Some t ->
             (forall (j : nat) t', (i < j)%nat -> texts !! j = Some t' ->
                _text_hash t' <> _text_hash t) ->
             res !! i = Some (cache' !! _text_hash t))
      /\ cache ⊆ cache'
  | (inl e, s') =>
      misses cache texts <> []
      /\ embed_texts (misses cache texts) s = (inl e, s')
  end.

End cache_spec.

(* ===================================================================== *)
(** ** Vocabulary of the query-path properties *)
(* ===================================================================== *)
Module vakilbot_spec.
Import effects vakilbot.

(** The search bodies sent to Elasticsearch, in order. *)
Definition searches (tr : list event) : list query_body :=
  omap (fun ev => match ev with EsSearch _ body => Some body | _ => None end) tr.

(** The act filter the first retrieval applies: the argument of the caller
    when it is set, the detected act otherwise. *)
Definition effective_act_filter (query : string) (act_filter_arg : option string)
  : option string :=
  if py.truthy_opt act_filter_arg then act_filter_arg
  else act_filter (_detect_intent query).

(** The two messages [answer] hands to the generation step. *)
Definition messages_for (query context : string) : list message :=
  [{| role := "system"; msg_content := SYSTEM_PROMPT |};
   {| role := "user"; msg_content := user_prompt query context |}].

Section stages.
Context {W : Type} (svc : Services W).

(** The first retrieval of [answer], with the filters of the query. *)
Definition filtered_search (self : VakilBot) (query : string)
    (act_filter_arg : option string) (rewritten_query : string)
  : M W (list searcher.result) :=
  searcher.hybrid_search svc (the_searcher self) rewritten_query (k self)
    (effective_act_filter query act_filter_arg) None
    (tag_filter (_detect_intent query)) None.

(** The retrieval of the fallback, without any filter. *)
Definition unfiltered_search (self : VakilBot) (rewritten_query : string)
  : M W (list searcher.result) :=
  searcher.hybrid_search svc (the_searcher self) rewritten_query (k self)
    None None None None.

(** Step 2 of [answer] with its fallback. *)
Definition retrieve (self : VakilBot) (query : string)
    (act_filter_arg : option string) (rewritten_query : string)
  : M W (list searcher.result) :=
  let* results := filtered_search self query act_filter_arg rewritten_query in
  if match results with [] => true | _ => false end
     && py.truthy_opt (effective_act_filter query act_filter_arg)
  then unfiltered_search self rewritten_query
  else ret results.

(** Steps 3 to 5 of [answer]. *)
Definition generate (self : VakilBot) (query : string) (stream : bool)
    (results : list searcher.result) : M W (answer_result W) :=
  let messages := messages_for query (_build_context results) in
  if stream then ret (Streaming (_stream_response svc self messages results))
  else let* text := _generate_response svc self messages results in
       ret (Complete text).

(** [appends c P]: running [c] only appends events to the trace, and [P]
    holds of the outcome and of the searches among the new events. *)
Definition appends {A} (c : M W A) (P : exn + A -> list query_body -> Prop) : Prop :=
  forall w tr, exists new,
    snd (snd (c (w, tr))) = tr ++ new /\ P (fst (c (w, tr))) (searches new).

(** The searches of a whole query: none, the filtered one, or the filtered
    one followed by an unfiltered one, the latter only under an act filter. *)
Definition query_searches (query : string) (act_filter_arg : option string)
    (bs : list query_body) : Prop :=
  let first_filter :=
    searcher._build_filters (effective_act_filter query act_filter_arg) None
      (tag_filter (_detect_intent query)) None in
  bs = []
  \/ (exists b, bs = [b] /\ body_filter b = first_filter)
  \/ (exists b1 b2, bs = [b1; b2]
        /\ body_filter b1 = first_filter /\ body_filter b2 = []
        /\ py.truthy_opt (effective_act_filter query act_filter_arg) = true).

End stages.

(** [VakilBot(searcher)] as the API builds it. *)
Definition bot : VakilBot :=
  {| the_searcher :=
       {| searcher.index_name := "indian-legal-corpus";
          searcher.the_embedder := scripted.openai_embedder |};
     llm_model := "gpt-4o";
     k := 5;
     rerank := true |}.

Definition hit_66 : hit :=
  {| hit_score := 0.5%float;
     src_chunk_id := Some "information_technology_act,_2020_66_0";
     src_content := Some "Whoever hacks is punished with imprisonment up to three years.";
     src_act_name := Some "Information Technology Act, 2020";
     src_act_year := Some 2020;
     src_section_number := Some "66";
     src_section_title := Some "Computer related offences";
     src_chapter := None;
     src_doc_type := Some "statute";
     src_tags := ["cybercrime"; "criminal"];
     hit_highlight := [] |}.

(** A world in which the first search finds nothing and a second one would
    find section 66. *)
Definition empty_then_66 (rewritten answer_text : string) : scripted.script :=
  {| scripted.embed_script := [inr [[0.25%float]]; inr [[0.25%float]]];
     scripted.encode_script := [];
     scripted.chat_script := [inr rewritten; inr answer_text];
     scripted.stream_script := [];
     scripted.search_script := [inr []; inr [hit_66]] |}.

Definition theft_query : string := "What is the punishment for theft?".

Definition theft_world : scripted.script :=
  empty_then_66 "Punishment for theft under Indian criminal law."
                "The context has no provision on theft.".

Definition hacking_query : string :=
  "What is the punishment for hacking under the IT Act?".

Definition hacking_world : scripted.script :=
  empty_then_66 "Punishment for unauthorised access under the Information Technology Act."
                "Section 66 provides for imprisonment up to three years.".

Definition hacking_rewritten : string :=
  "Punishment for unauthorised access under the Information Technology Act.".

Definition hacking_s1 : scripted.script * list event :=
  snd (_rewrite_query scripted.services bot hacking_query (hacking_world, [])).

Definition hacking_s2 : scripted.script * list event :=
  snd (filtered_search scripted.services bot hacking_query None
         hacking_rewritten hacking_s1).







(** The texts a stream of deltas yields: the contents that are present and
    not empty, in order. *)
Definition content_tokens (deltas : list (option string)) : list string :=
  List.filter py.truthy (omap (fun delta : option string => delta) deltas).





End vakilbot_spec.

(* ===================================================================== *)
(** ** Vocabulary of the further properties *)
(* ===================================================================== *)
Module more_spec.
Import chunker.

(** The first and the last character of a text. *)
Definition first_char (s : string) : option ascii :=
  match s with String c _ => Some c | EmptyString => None end.

Fixpoint last_char (s : string) : option ascii :=
  match s with
  | EmptyString => None
  | String c EmptyString => Some c
  | String _ s' => last_char s'
  end.

(** The characters of a text that are not whitespace, in order. *)
Definition nonspace_chars (l : list ascii) : list ascii :=
  List.filter (fun c => negb (py.isspace c)) l.

Definition nonspace (s : string) : list ascii :=
  nonspace_chars (list_ascii_of_string s).

(** The UTF-8 encodings of the whitespace characters outside ASCII: U+0085,
    U+00A0, U+1680, U+180E (whitespace up to Unicode 6.2), U+2000 to U+200A,
    U+2028, U+2029, U+202F, U+205F and U+3000. *)
Definition utf8_2 (a b : ascii) : string := String a (String b EmptyString).
Definition utf8_3 (a b c : ascii) : string := String a (utf8_2 b c).

Definition unicode_spaces : list string :=
  [utf8_2 "194" "133"; utf8_2 "194" "160";
   utf8_3 "225" "154" "128"; utf8_3 "225" "160" "142"]
  ++ map (fun n => utf8_3 "226" "128" (ascii_of_nat n)) (seq 128 11)
  ++ [utf8_3 "226" "128" "168"; utf8_3 "226" "128" "169"; utf8_3 "226" "128" "175";
      utf8_3 "226" "129" "159"; utf8_3 "227" "128" "128"].

(** A text all of whose whitespace characters are ASCII ones. *)
Definition ascii_whitespace_only (text : string) : Prop :=
  forallb (fun sp => negb (py.contains sp text)) unicode_spaces = true.

(** A text without a space and without a capital ASCII letter. *)
Definition normalized_id (s : string) : Prop :=
  List.Forall (fun c => c <> " "%char /\ py.isupper c = false) (list_ascii_of_string s).

(** The characters [str] prints for an integer: digits and the sign. *)
Definition int_char (c : ascii) : bool := py.isdigit c || Ascii.eqb c "-".

(** Whether the loop holds sentences of a chunk not closed yet. *)
Definition pending (st : loop_state) : nat :=
  match current_chunk_sentences st with [] => 0 | _ => 1 end.





(** A chunk carries the metadata of the section it was cut from. *)
Definition carries_metadata (doc : parser.LegalDocument) (c : Chunk) : Prop :=
  act_name c = parser.act_name doc
  /\ act_year c = parser.act_year doc
  /\ chapter c = parser.chapter doc
  /\ section_number c = parser.section_number doc
  /\ section_title c = parser.section_title doc
  /\ doc_type c = parser.doc_type doc
  /\ tags c = parser.tags doc
  /\ source_file c = parser.source_file doc.

End more_spec.

(* ===================================================================== *)
(** ** Vocabulary of the embedding properties *)
(* ===================================================================== *)
Module ingestion_spec.
Import effects embedder.

(** The contract of the embedding services: an answer holds one vector per
    input text. *)
Definition answers_in_full {W : Type} (svc : Services W) : Prop :=
  (forall m input w vs w',
      embeddings_create svc m input w = (inr vs, w') -> length vs = length input)
  /\ (forall input w vs w',
        local_encode svc input w = (inr vs, w') -> length vs = length input).

(** Embedding services that answer every request. *)
Definition never_fails {W : Type} (svc : Services W) : Prop :=
  (forall m input w, exists vs, fst (embeddings_create svc m input w) = inr vs)
  /\ (forall input w, exists vs, fst (local_encode svc input w) = inr vs).

(** The batches handed to the embedding model, in the order of the calls. *)
Definition embedding_inputs (tr : list event) : list (list string) :=
  omap (fun ev => match ev with
                  | EmbeddingsCreate _ input => Some input
                  | LocalEncode sentences => Some sentences
                  | _ => None
                  end) tr.

(** [sends bs sent]: the calls [sent] are the batches [bs] in order, each of
    them sent one to three times in a row. *)
Inductive sends : list (list string) -> list (list string) -> Prop :=
| sends_nil : sends [] []
| sends_batch b n bs sent :
    (1 <= n <= 3)%nat -> sends bs sent -> sends (b :: bs) (repeat b n ++ sent).

(** What [embed_texts] hands to the model for a text. *)
Definition model_input (self : LegalEmbedder) (text : string) : string :=
  if use_local self then "passage: " +:+ text else text.

(** Services that answer every text with the same vector. *)
Definition constant_services : Services unit :=
  {| embeddings_create := fun _ input w => (inr (map (fun _ => [1%float]) input), w);
     local_encode := fun input w => (inr (map (fun _ => [1%float]) input), w);
     chat_create := fun _ w => (inr EmptyString, w);
     chat_stream := fun _ w => (inr [], w);
     es_search := fun _ _ w => (inr [], w) |}.

(** An embedder whose batch size is negative. *)
Definition backward_embedder : LegalEmbedder :=
  {| model := "text-embedding-3-small"; batch_size := -1; use_local := true |}.

(** An embedder with batches of two. *)
Definition pair_embedder (local : bool) : LegalEmbedder :=
  {| model := "text-embedding-3-small"; batch_size := 2; use_local := local |}.

End ingestion_spec.

(* ===================================================================== *)
(** ** Vocabulary of the further query-path properties *)
(* ===================================================================== *)
Module query_spec.
Import effects vakilbot vakilbot_spec.

(** The chat requests sent, in order. *)
Definition chats (tr : list event) : list chat_request :=
  omap (fun ev => match ev with ChatCreate req => Some req | _ => None end) tr.

(** The requests one [hybrid_search] for [query] with [k] results may send:
    the embedding of the query, and the search itself. *)
Definition search_event (self : searcher.LegalSearcher) (query : string) (k : Z)
    (ev : event) : Prop :=
  match ev with
  | EmbeddingsCreate m input =>
      embedder.use_local (searcher.the_embedder self) = false
      /\ m = embedder.model (searcher.the_embedder self) /\ input = [query]
  | LocalEncode sentences =>
      embedder.use_local (searcher.the_embedder self) = true
      /\ sentences = ["query: " +:+ query]
  | EsSearch index body =>
      index = searcher.index_name self
      /\ body_multi_match_query body = query
      /\ body_size body = k
      /\ body_knn_k body = k * 2
      /\ body_knn_num_candidates body = k * 10
      /\ body_rrf_window_size body = k * 3
      /\ body_rrf_rank_constant body = 60
  | _ => False
  end.

(** The texts handed to an embedding model, request by request. *)
Definition embedding_texts (tr : list event) : list (list string) :=
  omap (fun ev => match ev with
                  | EmbeddingsCreate _ input => Some input
                  | LocalEncode sentences => Some sentences
                  | _ => None
                  end) tr.

(** The generation request of [answer] for some retrieval result. *)
Definition generation_of (self : VakilBot) (query : string) (stream : bool)
    (req : chat_request) : Prop :=
  exists results,
    req = generation_request self (messages_for query (_build_context results)) stream.

(** The text the model streamed: the deltas that carry content, joined. *)
Definition streamed_text (deltas : list (option string)) : string :=
  py.join EmptyString (omap (fun d : option string => d) deltas).

Definition bns : string := "Bharatiya Nyay Sanhita, 2023".
Definition bnss : string := "Bharatiya Nagrik Suraksha Sanhita, 2023".

(** A world whose model says the same thing streamed and in one piece. *)
Definition section_66_world : scripted.script :=
  {| scripted.embed_script := []; scripted.encode_script := [];
     scripted.chat_script := [inr "Section 66 applies."];
     scripted.stream_script :=
       [inr [Some "Section 66 "; None; Some EmptyString; Some "applies."]];
     scripted.search_script := [] |}.

(** A world whose index refuses the first search. *)
Definition refusing_world : scripted.script :=
  {| scripted.embed_script := [inr [[0.25%float]]; inr [[0.25%float]]];
     scripted.encode_script := [];
     scripted.chat_script := [inr hacking_rewritten; inr "Section 66 applies."];
     scripted.stream_script := [];
     scripted.search_script := [inl scripted.rate_limit_error; inr [hit_66]] |}.

Definition refusing_s1 : scripted.script * list event :=
  snd (_rewrite_query scripted.services bot hacking_query (refusing_world, [])).

Definition refusing_s2 : scripted.script * list event :=
  snd (filtered_search scripted.services bot hacking_query None
         hacking_rewritten refusing_s1).

(** The state of the hacking run once retrieval, fallback included, is over. *)
Definition hacking_s3 : scripted.script * list event :=
  snd (retrieve scripted.services bot hacking_query None hacking_rewritten hacking_s1).

End query_spec.

(* ===================================================================== *)
(** ** Properties of the chunker *)
(* ===================================================================== *)
Module chunker_props.
Import chunker chunker_spec.

(** *** Strings *)

Lemma append_cons (c : ascii) (s t : string) :
  String c s +:+ t = String c (s +:+ t).
Proof. reflexivity. Qed.

Lemma append_nil_l (s : string) : EmptyString +:+ s = s.
Proof. reflexivity. Qed.

Lemma append_nil_r (s : string) : s +:+ EmptyString = s.
Proof.
  induction s as [|c s IH]; [reflexivity | now rewrite append_cons, IH].
Qed.

Lemma append_assoc (a b c : string) : (a +:+ b) +:+ c = a +:+ (b +:+ c).
Proof.
  induction a as [|x a IH]; [reflexivity | now rewrite !append_cons, IH].
Qed.

Lemma length_append (a b : string) :
  String.length (a +:+ b) = (String.length a + String.length b)%nat.
Proof.
  induction a as [|x a IH]; [reflexivity |].
  rewrite append_cons. simpl. now rewrite IH.
Qed.

Lemma append_neq_self (h s : string) : h <> EmptyString -> s <> h +:+ s.
Proof.
  intros Hh Heq. apply (f_equal String.length) in Heq.
  rewrite length_append in Heq. destruct h; [congruence | simpl in Heq; lia].
Qed.

Lemma drop_append (h s : string) : py.drop (String.length h) (h +:+ s) = s.
Proof.
  induction h as [|c h IH]; [now destruct s |].
  rewrite append_cons. simpl. exact IH.
Qed.

(** The header is never empty: it ends with two newlines. *)
Lemma header_nonempty (doc : parser.LegalDocument) :
  _build_section_header doc <> EmptyString.
Proof.
  unfold _build_section_header. intros H.
  apply (f_equal String.length) in H. rewrite length_append in H.
  simpl in H. lia.
Qed.

Lemma count_tokens_nonneg (self : LegalChunker) (text : string) :
  0 <= count_tokens self text.
Proof. unfold count_tokens. lia. Qed.

(** *** The single-chunk branch *)

Lemma chunk_document_fits (self : LegalChunker) (doc : parser.LegalDocument) :
  count_tokens self (parser.content doc) <= max_tokens self ->
  chunk_document self doc = [_make_chunk doc (parser.content doc) 0 1].
Proof.
  intros H. unfold chunk_document.
  destruct (Z.leb_spec (count_tokens self (parser.content doc)) (max_tokens self));
    [reflexivity | lia].
Qed.

(** In the single-chunk branch the stored text is the bare section content,
    which differs from header + content whatever the section. *)
Lemma single_chunk_omits_header (self : LegalChunker) (doc : parser.LegalDocument) :
  count_tokens self (_build_section_header doc)
    + count_tokens self (parser.content doc) <= max_tokens self ->
  exists c, chunk_document self doc = [c]
    /\ content c = parser.content doc
    /\ content c <> _build_section_header doc +:+ parser.content doc.
Proof.
  intros H.
  pose proof (count_tokens_nonneg self (_build_section_header doc)).
  eexists. split; [apply chunk_document_fits; lia |].
  split; [reflexivity |]. simpl. apply append_neq_self, header_nonempty.
Qed.

(** C1, evaluated on the code.  A section of 26 tokens under a 38-token
    header fits the budget of 512; [chunk_document] returns one chunk, but its
    content is the section content alone, not the header followed by it. *)
Lemma C1_single_chunk_lacks_header :
  let doc := it_act_66 "Whoever hacks is punished." in
  count_tokens small_chunker (_build_section_header doc)
    + count_tokens small_chunker (parser.content doc) <= max_tokens small_chunker
  /\ map content (chunk_document small_chunker doc) = ["Whoever hacks is punished."]
  /\ map content (chunk_document small_chunker doc)
       <> [_build_section_header doc +:+ parser.content doc].
Proof.
  cbv zeta. split; [vm_compute; discriminate |].
  split; [reflexivity | vm_compute; discriminate].
Qed.

(** *** Empty sections *)

(** C2 as stated fails: an empty section under the default budgets yields
    one chunk, not zero. *)
Lemma C2_empty_section_yields_a_chunk :
  parser.content (it_act_66 EmptyString) = EmptyString
  /\ length (chunk_document small_chunker (it_act_66 EmptyString)) = 1%nat.
Proof. split; reflexivity. Qed.

(** C2, amended.  For a section with empty content (which the encoder maps
    to no token): with a non-negative budget [chunk_document] returns exactly
    one chunk, numbered 0 of 1; only a negative budget sends the empty
    content to the splitting branch, which finds no sentence and returns no
    chunk. *)
Theorem C2_empty_section (self : LegalChunker) (doc : parser.LegalDocument) :
  parser.content doc = EmptyString ->
  encoder self EmptyString = [] ->
  (0 <= max_tokens self ->
     exists c, chunk_document self doc = [c]
       /\ chunk_index c = 0 /\ total_chunks c = 1)
  /\ (max_tokens self < 0 -> chunk_document self doc = []).
Proof.
  intros Hc He.
  assert (Ht : count_tokens self (parser.content doc) = 0)
    by (unfold count_tokens; rewrite Hc, He; reflexivity).
  split; intros Hm.
  - eexists. split; [apply chunk_document_fits; lia |]. split; reflexivity.
  - unfold chunk_document. rewrite Ht.
    destruct (Z.leb_spec 0 (max_tokens self)); [lia |].
    rewrite Hc. reflexivity.
Qed.

Lemma C2_empty_section_witness :
  (exists c, chunk_document small_chunker (it_act_66 EmptyString) = [c]
     /\ chunk_index c = 0 /\ total_chunks c = 1).
Proof.
  apply (C2_empty_section small_chunker (it_act_66 EmptyString));
    [reflexivity | reflexivity | vm_compute; discriminate].
Defined.

(** *** Numbering *)

Lemma numbered_snoc (cs : list Chunk) (c : Chunk) :
  numbered cs -> chunk_index c = Z.of_nat (length cs) -> numbered (cs ++ [c]).
Proof.
  unfold numbered. intros Hn Hc.
  rewrite length_app, map_app, Hn. simpl length.
  rewrite Nat.add_1_r, seq_S, map_app. simpl. now rewrite Hc.
Qed.

(** The loop numbers the chunks it closes, and [chunk_index] counts them. *)
Lemma loop_body_numbered self doc hdr ht st sentence :
  numbered (chunks st) -> next_index st = Z.of_nat (length (chunks st)) ->
  let st' := loop_body self doc hdr ht st sentence in
  numbered (chunks st') /\ next_index st' = Z.of_nat (length (chunks st')).
Proof.
  intros Hn Hi. unfold loop_body.
  destruct ((current_token_count st + count_tokens self sentence >? max_tokens self)
            && negb match current_chunk_sentences st with [] => true | _ => false end);
    simpl.
  - split.
    + apply numbered_snoc; [assumption | exact Hi].
    + rewrite length_app. simpl. lia.
  - split; assumption.
Qed.

Lemma run_loop_numbered self doc hdr ht sentences : forall st,
  numbered (chunks st) -> next_index st = Z.of_nat (length (chunks st)) ->
  let st' := run_loop self doc hdr ht st sentences in
  numbered (chunks st') /\ next_index st' = Z.of_nat (length (chunks st')).
Proof.
  induction sentences as [|s ss IH]; intros st Hn Hi; simpl.
  - split; assumption.
  - destruct (loop_body_numbered self doc hdr ht st s Hn Hi) as [Hn' Hi'].
    apply IH; assumption.
Qed.

Lemma numbered_set_total (t : Z) (cs : list Chunk) :
  numbered cs -> numbered (map (set_total_chunks t) cs).
Proof.
  unfold numbered. rewrite length_map, map_map. simpl. exact (fun H => H).
Qed.

Lemma numbered_bounds (cs : list Chunk) :
  numbered cs -> Forall (fun c => 0 <= chunk_index c < Z.of_nat (length cs)) cs.
Proof.
  unfold numbered. intros Hn. apply List.Forall_forall. intros c Hc.
  assert (Hin : In (chunk_index c) (map Z.of_nat (seq 0 (length cs))))
    by (rewrite <- Hn; now apply List.in_map).
  apply List.in_map_iff in Hin. destruct Hin as (i & Hi & Hseq).
  apply List.in_seq in Hseq. lia.
Qed.

(** C6.  In the list [chunk_document] returns, the chunk indices are
    0, 1, ..., n-1 in order (n the number of chunks), every chunk carries
    [total_chunks = n], and so [0 <= chunk_index < total_chunks]. *)
Theorem C6_chunk_numbering (self : LegalChunker) (doc : parser.LegalDocument) :
  let cs := chunk_document self doc in
  let n := Z.of_nat (length cs) in
  map chunk_index cs = map Z.of_nat (seq 0 (length cs))
  /\ Forall (fun c => total_chunks c = n /\ 0 <= chunk_index c < total_chunks c) cs.
Proof.
  cbv zeta.
  assert (Hgoal : forall cs, numbered cs ->
            Forall (fun c => total_chunks c = Z.of_nat (length cs)) cs ->
            map chunk_index cs = map Z.of_nat (seq 0 (length cs))
            /\ Forall (fun c => total_chunks c = Z.of_nat (length cs)
                              /\ 0 <= chunk_index c < total_chunks c) cs).
  { intros cs Hn Ht. split; [exact Hn |].
    pose proof (numbered_bounds cs Hn) as Hb.
    rewrite List.Forall_forall in *. intros c Hc.
    specialize (Ht c Hc). specialize (Hb c Hc). split; [assumption | lia]. }
  unfold chunk_document.
  destruct (count_tokens self (parser.content doc) <=? max_tokens self).
  - apply Hgoal; [reflexivity | repeat constructor].
  - set (hdr := _build_section_header doc).
    set (st := run_loop _ _ _ _ _ _).
    assert (Hst : numbered (chunks st)
                  /\ next_index st = Z.of_nat (length (chunks st)))
      by (apply run_loop_numbered; reflexivity).
    destruct Hst as [Hn Hi].
    set (cs := match current_chunk_sentences st with [] => chunks st | _ => _ end).
    assert (Hcs : numbered cs).
    { subst cs. destruct (current_chunk_sentences st); [assumption |].
      apply numbered_snoc; [assumption | exact Hi]. }
    apply Hgoal.
    + now apply numbered_set_total.
    + rewrite length_map. apply List.Forall_forall. intros c Hc.
      apply List.in_map_iff in Hc. destruct Hc as (c0 & <- & _). reflexivity.
Qed.

(** *** Overlap and coverage in the splitting branch *)

Lemma linked_snoc (R : string -> string -> Prop) (bs : list string) (b : string) :
  linked R bs -> (forall bl, last bs = Some bl -> R bl b) -> linked R (bs ++ [b]).
Proof.
  intros Hl Hlast k b1 b2 H1 H2.
  destruct (Nat.lt_ge_cases (S k) (length bs)) as [Hlt | Hge].
  - rewrite lookup_app_l in H1 by lia. rewrite lookup_app_l in H2 by lia.
    eapply Hl; eassumption.
  - rewrite lookup_app_r in H2 by lia.
    destruct (S k - length bs)%nat as [|d] eqn:Hd; [| now destruct d].
    simpl in H2. injection H2 as <-.
    rewrite lookup_app_l in H1 by lia.
    apply Hlast. rewrite last_lookup.
    replace (Nat.pred (length bs)) with k by lia. exact H1.
Qed.

Lemma linked_mono (R R' : string -> string -> Prop) (bs : list string) :
  (forall a b, R a b -> R' a b) -> linked R bs -> linked R' bs.
Proof. intros HR Hl k b1 b2 H1 H2. eapply HR, Hl; eassumption. Qed.

Lemma overlap_link_mono self ps ps' b1 b2 :
  (forall x, In x ps -> In x ps') ->
  overlap_link self ps b1 b2 -> overlap_link self ps' b1 b2.
Proof. intros Hi (u & Hu & Hs & Ho). exists u. auto. Qed.

(** [join] and a last element. *)
Lemma join_snoc (sep : string) (xs : list string) (u : string) :
  py.join sep (xs ++ [u])
  = match xs with [] => EmptyString | _ => py.join sep xs +:+ sep end +:+ u.
Proof.
  unfold py.join. induction xs as [|x xs IH]; [reflexivity |].
  destruct xs as [|y ys].
  - simpl. now rewrite append_assoc.
  - change (String.concat sep ((x :: y :: ys) ++ [u]))
      with (x +:+ sep +:+ String.concat sep ((y :: ys) ++ [u])).
    rewrite IH.
    change (String.concat sep (x :: y :: ys))
      with (x +:+ sep +:+ String.concat sep (y :: ys)).
    now rewrite !append_assoc.
Qed.

Lemma join_snoc_suffix (sep : string) (xs : list string) (u : string) :
  exists g, py.join sep (xs ++ [u]) = g +:+ u.
Proof. rewrite join_snoc. eauto. Qed.

Lemma join_snoc_gap (sep : string) (xs : list string) (u : string) :
  exists g, py.join sep (xs ++ [u]) = py.join sep xs +:+ g +:+ u.
Proof.
  rewrite join_snoc. destruct xs as [|x xs].
  - exists EmptyString. reflexivity.
  - exists sep. now rewrite append_assoc.
Qed.

Lemma join_cons_nonempty (sep x : string) (xs : list string) :
  xs <> [] -> py.join sep (x :: xs) = x +:+ sep +:+ py.join sep xs.
Proof. destruct xs; [congruence | reflexivity]. Qed.

Lemma embeds_app_r (ss : list string) (t x : string) :
  embeds ss t -> embeds ss (t +:+ x).
Proof.
  induction 1 as [t | gap s ss t _ IH]; [constructor |].
  rewrite !append_assoc. now constructor.
Qed.

Lemma embeds_snoc (ss : list string) (t gap s : string) :
  embeds ss t -> embeds (ss ++ [s]) (t +:+ gap +:+ s).
Proof.
  induction 1 as [t | g0 s0 ss t _ IH]; simpl.
  - replace (t +:+ gap +:+ s) with ((t +:+ gap) +:+ s +:+ EmptyString)
      by now rewrite append_nil_r, append_assoc.
    do 2 constructor.
  - rewrite !append_assoc. now constructor.
Qed.

Lemma join_empty_snoc (bs : list string) (b : string) :
  py.join EmptyString (bs ++ [b]) = py.join EmptyString bs +:+ b.
Proof.
  rewrite join_snoc. destruct bs; [reflexivity | now rewrite append_nil_r].
Qed.

Lemma truthy_append_r (o t : string) :
  py.truthy t = true -> py.truthy (o +:+ t) = true.
Proof. destruct o; [now rewrite append_nil_l | reflexivity]. Qed.

(** The overlap walk only prepends to the text it is given. *)
Lemma backtrack_suffix self rs : forall t n,
  exists o, fst (backtrack self rs t n) = o +:+ t.
Proof.
  induction rs as [|sent rs IH]; intros t n; simpl.
  - exists EmptyString. reflexivity.
  - destruct (n + count_tokens self sent <? overlap_tokens self).
    + destruct (IH (sent +:+ " " +:+ t) (n + count_tokens self sent)) as [o Ho].
      exists (o +:+ sent +:+ " "). rewrite Ho. now rewrite !append_assoc.
    + exists EmptyString. reflexivity.
Qed.

(** A last sentence below the overlap budget is always taken. *)
Lemma backtrack_takes_last self xs u :
  count_tokens self u < overlap_tokens self ->
  exists o, fst (backtrack self (rev (xs ++ [u])) EmptyString 0) = o +:+ u +:+ " ".
Proof.
  intros Hu. rewrite rev_app_distr. simpl.
  destruct (Z.ltb_spec (0 + count_tokens self u) (overlap_tokens self)); [| lia].
  destruct (backtrack_suffix self (rev xs) (u +:+ " " +:+ EmptyString)
              (0 + count_tokens self u)) as [o Ho].
  exists o. rewrite Ho. now rewrite append_nil_r.
Qed.

(** The invariant of the [while] loop, after the sentences [ps] have been
    consumed. *)
Section loop_invariant.
Variable self : LegalChunker.
Variable doc : parser.LegalDocument.

Local Abbreviation hdr := (_build_section_header doc).
Local Abbreviation ht := (count_tokens self hdr).

Lemma loop_inv_init :
  loop_inv self doc [] {| chunks := []; current_chunk_sentences := [];
                 current_token_count := ht; next_index := 0 |}.
Proof.
  constructor; simpl.
  - constructor.
  - constructor.
  - intros k b1 b2 H. discriminate.
  - intros bl H. discriminate.
  - now left.
Qed.

(** Closing the current chunk. *)
Lemma close_chunk ps st :
  loop_inv self doc ps st -> current_chunk_sentences st <> [] ->
  let b := py.join " " (current_chunk_sentences st) in
  linked (overlap_link self ps) (closed_bodies doc st ++ [b])
  /\ exists u, In u ps /\ (exists p, b = p +:+ u)
       /\ (count_tokens self u < overlap_tokens self ->
           exists o, fst (backtrack self (rev (current_chunk_sentences st))
                            EmptyString 0) = o +:+ u +:+ " ").
Proof.
  intros [Hh Hc Hl Hp Hlast] Hne b. split.
  - apply linked_snoc; [exact Hl |].
    intros bl Hbl. destruct (Hp bl Hbl) as (u & Hu & Hsuf & Hov).
    exists u. split; [exact Hu |]. split; [exact Hsuf |].
    intros Hlt. destruct (Hov Hlt) as (o & fresh & Hf & Hccs).
    exists o, (py.join " " fresh). subst b. rewrite Hccs.
    rewrite join_cons_nonempty by exact Hf. now rewrite !append_assoc.
  - destruct Hlast as [He | (xs & u & Hccs & Hu)]; [congruence |].
    exists u. split; [exact Hu |]. split.
    + subst b. rewrite Hccs. apply join_snoc_suffix.
    + intros Hlt. rewrite Hccs. now apply backtrack_takes_last.
Qed.

Lemma chunk_body_make (body : string) (i t : Z) :
  chunk_body hdr (_make_chunk doc (hdr +:+ body) i t) = body.
Proof. unfold chunk_body. simpl. apply drop_append. Qed.

Lemma loop_body_inv ps st sentence :
  loop_inv self doc ps st ->
  loop_inv self doc (ps ++ [sentence]) (loop_body self doc hdr ht st sentence).
Proof.
  intros Hinv. pose proof Hinv as [Hh Hc Hl Hp Hlast].
  assert (Hin : forall x, In x ps -> In x (ps ++ [sentence]))
    by (intros x Hx; apply in_or_app; now left).
  unfold loop_body.
  destruct ((current_token_count st + count_tokens self sentence >? max_tokens self)
            && negb match current_chunk_sentences st with [] => true | _ => false end)
    eqn:Hcond.
  - (* the current chunk is closed *)
    assert (Hne : current_chunk_sentences st <> []).
    { apply andb_true_iff in Hcond. destruct Hcond as [_ Hcond].
      destruct (current_chunk_sentences st); [discriminate | congruence]. }
    destruct (close_chunk ps st Hinv Hne) as (Hl' & u & Hu & Hsuf & Hov).
    set (b := py.join " " (current_chunk_sentences st)) in *.
    set (ov := fst (backtrack self (rev (current_chunk_sentences st)) EmptyString 0))
      in *.
    constructor; simpl; unfold closed_bodies; simpl.
    + apply Forall_app. split; [exact Hh |].
      constructor; [| constructor]. now rewrite chunk_body_make.
    + rewrite map_app. simpl. rewrite chunk_body_make.
      rewrite join_empty_snoc.
      destruct (join_snoc_suffix " " (if py.truthy ov then [ov] else []) sentence)
        as [g ->].
      fold (closed_bodies doc st). now apply embeds_snoc.
    + rewrite map_app. simpl. rewrite chunk_body_make.
      eapply linked_mono; [| exact Hl'].
      intros a c. now apply overlap_link_mono.
    + rewrite map_app. simpl. rewrite chunk_body_make.
      intros bl Hbl. rewrite last_snoc in Hbl. injection Hbl as <-.
      exists u. split; [now apply Hin |]. split; [exact Hsuf |].
      intros Hlt. destruct (Hov Hlt) as [o Ho].
      exists o, [sentence]. split; [discriminate |].
      rewrite Ho. rewrite truthy_append_r by apply truthy_append_r, eq_refl.
      reflexivity.
    + right. exists (if py.truthy ov then [ov] else []), sentence.
      split; [reflexivity |]. apply in_or_app. right. now left.
  - (* the sentence joins the current chunk *)
    constructor; simpl.
    + exact Hh.
    + destruct (join_snoc_gap " " (current_chunk_sentences st) sentence) as [g ->].
      rewrite <- append_assoc. now apply embeds_snoc.
    + eapply linked_mono; [| exact Hl].
      intros a c. now apply overlap_link_mono.
    + intros bl Hbl. destruct (Hp bl Hbl) as (u & Hu & Hsuf & Hov).
      exists u. split; [now apply Hin |]. split; [exact Hsuf |].
      intros Hlt. destruct (Hov Hlt) as (o & fresh & Hf & Hccs).
      exists o, (fresh ++ [sentence]). split; [now destruct fresh |].
      now rewrite Hccs.
    + right. exists (current_chunk_sentences st), sentence.
      split; [reflexivity |]. apply in_or_app. right. now left.
Qed.

Lemma run_loop_inv sentences : forall ps st,
  loop_inv self doc ps st ->
  loop_inv self doc (ps ++ sentences) (run_loop self doc hdr ht st sentences).
Proof.
  induction sentences as [|s ss IH]; intros ps st Hinv; simpl.
  - now rewrite app_nil_r.
  - replace (ps ++ s :: ss) with ((ps ++ [s]) ++ ss)
      by now rewrite <- app_assoc.
    apply IH. now apply loop_body_inv.
Qed.

End loop_invariant.

Lemma chunk_body_set_total (hdr : string) (t : Z) (cs : list Chunk) :
  map (chunk_body hdr) (map (set_total_chunks t) cs) = map (chunk_body hdr) cs.
Proof. rewrite map_map. reflexivity. Qed.

Lemma content_set_total (t : Z) (cs : list Chunk) :
  map content (map (set_total_chunks t) cs) = map content cs.
Proof. rewrite map_map. reflexivity. Qed.

Lemma header_of_bodies (hdr : string) (cs : list Chunk) :
  Forall (fun c => content c = hdr +:+ chunk_body hdr c) cs ->
  map content cs = map (String.append hdr) (map (chunk_body hdr) cs).
Proof.
  induction 1 as [|c cs Hc _ IH]; [reflexivity |].
  simpl. now rewrite <- Hc, IH.
Qed.

(** *** The overlap, piece by piece *)

Lemma truthy_carry (kept : list string) :
  py.truthy (carry kept) = match kept with [] => false | _ => true end.
Proof.
  destruct kept as [|p kept]; [reflexivity |].
  simpl. apply truthy_append_r. reflexivity.
Qed.

Lemma seed_carry (kept : list string) :
  (if py.truthy (carry kept) then [carry kept] else []) = seed kept.
Proof. rewrite truthy_carry. now destruct kept. Qed.

(** The walk, started with the pieces [kept0] already taken. *)
Lemma backtrack_kept self rs : forall kept0,
  (kept0 <> [] -> piece_tokens self kept0 < overlap_tokens self) ->
  exists taken rest,
    rs = rev taken ++ rest
    /\ fst (backtrack self rs (carry kept0) (piece_tokens self kept0))
       = carry (taken ++ kept0)
    /\ (taken ++ kept0 <> [] ->
        piece_tokens self (taken ++ kept0) < overlap_tokens self)
    /\ (forall d, head rest = Some d ->
          overlap_tokens self <= piece_tokens self (taken ++ kept0) + count_tokens self d).
Proof.
  induction rs as [|sent rs IH]; intros kept0 Hk.
  - exists [], []. repeat split; [exact Hk | discriminate].
  - cbn [backtrack].
    destruct (Z.ltb_spec (piece_tokens self kept0 + count_tokens self sent)
                (overlap_tokens self)) as [Hfits | Hfull].
    + destruct (IH (sent :: kept0)) as (taken & rest & Hrs & Hfst & Hb & Hmax).
      { intros _. simpl. lia. }
      exists (taken ++ [sent]), rest.
      rewrite rev_app_distr, <- !app_assoc. cbn [rev app].
      split; [now rewrite Hrs |]. split; [| split; assumption].
      rewrite <- Hfst.
      replace (piece_tokens self kept0 + count_tokens self sent)
        with (piece_tokens self (sent :: kept0)) by (simpl; lia).
      reflexivity.
    + exists [], (sent :: rs). cbn [rev app].
      split; [reflexivity |]. split; [reflexivity |]. split; [exact Hk |].
      intros d [= <-]. lia.
Qed.

Lemma last_rev_head (l : list string) : last (rev l) = head l.
Proof. destruct l as [|x l]; [reflexivity |]. simpl. apply last_snoc. Qed.

(** The text [backtrack] leaves carries the longest suffix of whole pieces
    whose tokens stay below [overlap_tokens]. *)
Lemma backtrack_overlap self (pieces : list string) :
  exists kept,
    overlap_suffix self pieces kept
    /\ fst (backtrack self (rev pieces) EmptyString 0) = carry kept.
Proof.
  destruct (backtrack_kept self (rev pieces) []) as (taken & rest & Hrs & Hfst & Hb & Hmax);
    [congruence |].
  rewrite app_nil_r in *. exists taken. split; [| exact Hfst].
  exists (rev rest). split; [| split; [exact Hb |]].
  - apply (f_equal (@rev string)) in Hrs.
    now rewrite rev_involutive, rev_app_distr, rev_involutive in Hrs.
  - intros d Hd. apply Hmax. now rewrite <- last_rev_head.
Qed.

Lemma last_default {A : Type} (l : list A) (d d' : A) :
  l <> [] -> List.last l d = List.last l d'.
Proof.
  induction l as [|a l IH]; [congruence |]. intros _.
  destruct l as [|b l]; [reflexivity |]. apply IH. discriminate.
Qed.

Lemma last_cons_default {A : Type} (a d : A) (l : list A) :
  List.last (a :: l) d = List.last l a.
Proof.
  destruct l as [|b l]; [reflexivity |].
  change (List.last (a :: b :: l) d) with (List.last (b :: l) d).
  apply last_default. discriminate.
Qed.

Lemma chain_from_snoc self (plists : list (list string)) :
  forall (prev : list string) (groups : list (list string)) (pieces group : list string),
    chain_from self prev plists groups ->
    (exists kept, overlap_suffix self (List.last plists prev) kept
                  /\ pieces = seed kept ++ group) ->
    chain_from self prev (plists ++ [pieces]) (groups ++ [group]).
Proof.
  induction plists as [|p0 plists IH]; intros prev groups pieces group Hc Hk;
    destruct groups as [|g0 groups]; cbn [chain_from] in Hc; try contradiction.
  - cbn [app chain_from]. split; [exact Hk | exact I].
  - destruct Hc as [H0 Hc]. cbn [app chain_from]. split; [exact H0 |].
    apply IH; [exact Hc |]. now rewrite last_cons_default in Hk.
Qed.

Section overlap_chain.
Variable self : LegalChunker.
Variable doc : parser.LegalDocument.

Local Abbreviation hdr := (_build_section_header doc).
Local Abbreviation ht := (count_tokens self hdr).

Lemma chain_inv_init :
  chain_inv self doc [] {| chunks := []; current_chunk_sentences := [];
                           current_token_count := ht; next_index := 0 |}.
Proof.
  exists [], [], []. cbn.
  split; [reflexivity |]. split; [exact I |]. split; [reflexivity |].
  split; [constructor |]. split; [| now left].
  exists []. split; [| reflexivity].
  exists []. split; [reflexivity |]. split; [congruence | discriminate].
Qed.

Lemma closed_bodies_snoc (st : loop_state) (body : string) (i t : Z) :
  map (chunk_body hdr) (chunks st ++ [_make_chunk doc (hdr +:+ body) i t])
  = closed_bodies doc st ++ [body].
Proof.
  rewrite map_app. cbn [map]. now rewrite (chunk_body_make doc).
Qed.

Lemma loop_body_chain (ps : list string) (st : loop_state) (sentence : string) :
  chain_inv self doc ps st ->
  chain_inv self doc (ps ++ [sentence]) (loop_body self doc hdr ht st sentence).
Proof.
  intros (plists & groups & fresh & Hbodies & Hchain & Hps & Hgroups
          & (kept & Hkept & Hcur) & Hfresh).
  unfold loop_body.
  destruct ((current_token_count st + count_tokens self sentence >? max_tokens self)
            && negb match current_chunk_sentences st with [] => true | _ => false end)
    eqn:Hcond.
  - (* the current chunk is closed *)
    assert (Hne : current_chunk_sentences st <> []).
    { apply andb_true_iff in Hcond. destruct Hcond as [_ Hcond].
      destruct (current_chunk_sentences st); [discriminate | congruence]. }
    destruct Hfresh as [Hnil | Hfresh]; [congruence |].
    destruct (backtrack_overlap self (current_chunk_sentences st))
      as (kept' & Hkept' & Hov).
    exists (plists ++ [current_chunk_sentences st]), (groups ++ [fresh]), [sentence].
    unfold chain_inv, closed_bodies. cbn [chunks current_chunk_sentences].
    split; [| split; [| split; [| split; [| split]]]].
    + rewrite closed_bodies_snoc, Hbodies, map_app. reflexivity.
    + apply chain_from_snoc; [exact Hchain |]. exists kept. now split.
    + rewrite concat_app. cbn [concat]. rewrite app_nil_r, <- Hps. reflexivity.
    + apply List.Forall_app. split; [exact Hgroups |]. now constructor.
    + exists kept'. rewrite List.last_last. split; [exact Hkept' |].
      now rewrite Hov, seed_carry.
    + right. discriminate.
  - (* the sentence joins the current chunk *)
    exists plists, groups, (fresh ++ [sentence]).
    cbn [chunks current_chunk_sentences].
    split; [exact Hbodies |]. split; [exact Hchain |].
    split; [now rewrite app_assoc, Hps |]. split; [exact Hgroups |].
    split; [exists kept; split; [exact Hkept | now rewrite Hcur, app_assoc] |].
    right. now destruct fresh.
Qed.

Lemma run_loop_chain (sentences : list string) : forall ps st,
  chain_inv self doc ps st ->
  chain_inv self doc (ps ++ sentences) (run_loop self doc hdr ht st sentences).
Proof.
  induction sentences as [|s ss IH]; intros ps st Hinv; simpl.
  - now rewrite app_nil_r.
  - replace (ps ++ s :: ss) with ((ps ++ [s]) ++ ss)
      by now rewrite <- app_assoc.
    apply IH. now apply loop_body_chain.
Qed.

(** The chunks [chunk_document] returns in the splitting branch. *)
Lemma chunk_document_chain :
  max_tokens self < count_tokens self (parser.content doc) ->
  cut_with_overlap self (_split_into_sentences (parser.content doc)) (bodies self doc).
Proof.
  intros Hbig. unfold bodies, chunk_document.
  destruct (Z.leb_spec (count_tokens self (parser.content doc)) (max_tokens self));
    [lia |].
  set (sents := _split_into_sentences (parser.content doc)).
  set (st := run_loop _ _ _ _ _ _).
  assert (Hinv : chain_inv self doc sents st)
    by (apply (run_loop_chain sents []), chain_inv_init).
  rewrite chunk_body_set_total.
  destruct Hinv as (plists & groups & fresh & Hbodies & Hchain & Hps & Hgroups
                    & (kept & Hkept & Hcur) & Hfresh).
  destruct (current_chunk_sentences st) as [|x xs] eqn:Hccs.
  - exists plists, groups. split; [exact Hbodies |]. split; [exact Hchain |].
    split; [| exact Hgroups].
    destruct fresh; [now rewrite app_nil_r in Hps |].
    destruct kept; discriminate Hcur.
  - destruct Hfresh as [Hnil | Hfresh]; [discriminate |].
    exists (plists ++ [x :: xs]), (groups ++ [fresh]).
    split; [| split; [| split]].
    + rewrite closed_bodies_snoc, Hbodies, map_app. reflexivity.
    + apply chain_from_snoc; [exact Hchain |]. exists kept. now split.
    + rewrite concat_app. cbn [concat]. now rewrite app_nil_r.
    + apply List.Forall_app. split; [exact Hgroups |]. now constructor.
Qed.

(** **** When nothing can overlap *)

Lemma single_inv_init :
  single_inv self doc [] {| chunks := []; current_chunk_sentences := [];
                            current_token_count := ht; next_index := 0 |}.
Proof. split; [cbn; lia | left; repeat split]. Qed.

Lemma loop_body_single (ps : list string) (st : loop_state) (sentence : string) :
  max_tokens self < ht ->
  List.Forall (fun s => overlap_tokens self <= count_tokens self s) ps ->
  single_inv self doc ps st ->
  single_inv self doc (ps ++ [sentence]) (loop_body self doc hdr ht st sentence).
Proof.
  intros Hhdr Hlong [Hcount Hshape].
  pose proof (count_tokens_nonneg self sentence) as Hs.
  unfold loop_body, single_inv.
  destruct Hshape as [(-> & Hcur & Hclosed) | (init & u & -> & Hcur & Hclosed)].
  - rewrite Hcur, andb_false_r.
    cbn [chunks current_chunk_sentences current_token_count].
    split; [lia |]. right. exists [], sentence. rewrite Hcur. now repeat split.
  - rewrite Hcur.
    destruct (Z.gtb_spec (current_token_count st + count_tokens self sentence)
                (max_tokens self)) as [_ | Hno]; [| lia].
    cbn [andb negb rev app backtrack].
    assert (Hu : overlap_tokens self <= count_tokens self u).
    { rewrite List.Forall_forall in Hlong. apply Hlong, in_or_app. right. now left. }
    destruct (Z.ltb_spec (0 + count_tokens self u) (overlap_tokens self)); [lia |].
    cbn [fst py.truthy app chunks current_chunk_sentences current_token_count].
    pose proof (count_tokens_nonneg self EmptyString).
    split; [lia |]. right. exists (init ++ [u]), sentence.
    split; [reflexivity |]. split; [reflexivity |].
    unfold closed_bodies. cbn [chunks].
    change (py.join " " [u]) with u.
    rewrite closed_bodies_snoc. now rewrite Hclosed.
Qed.

Lemma run_loop_single (sentences : list string) : forall ps st,
  max_tokens self < ht ->
  List.Forall (fun s => overlap_tokens self <= count_tokens self s) (ps ++ sentences) ->
  single_inv self doc ps st ->
  single_inv self doc (ps ++ sentences) (run_loop self doc hdr ht st sentences).
Proof.
  induction sentences as [|s ss IH]; intros ps st Hhdr Hlong Hinv; simpl.
  - now rewrite app_nil_r.
  - replace (ps ++ s :: ss) with ((ps ++ [s]) ++ ss) in *
      by now rewrite <- app_assoc.
    apply IH; [exact Hhdr | exact Hlong |].
    apply loop_body_single; [exact Hhdr | | exact Hinv].
    apply List.Forall_app in Hlong. destruct Hlong as [Hlong _].
    apply List.Forall_app in Hlong. now destruct Hlong.
Qed.

(** Whatever the tokenizer: when the header alone has more than
    [max_tokens] tokens and every sentence has [overlap_tokens] tokens or
    more, the chunks hold one sentence each and nothing else. *)
Lemma one_sentence_per_chunk :
  max_tokens self < ht ->
  max_tokens self < count_tokens self (parser.content doc) ->
  List.Forall (fun s => overlap_tokens self <= count_tokens self s)
    (_split_into_sentences (parser.content doc)) ->
  bodies self doc = _split_into_sentences (parser.content doc).
Proof.
  intros Hhdr Hbig Hlong. unfold bodies, chunk_document.
  destruct (Z.leb_spec (count_tokens self (parser.content doc)) (max_tokens self));
    [lia |].
  set (sents := _split_into_sentences (parser.content doc)) in *.
  set (st := run_loop _ _ _ _ _ _).
  assert (Hinv : single_inv self doc sents st)
    by (apply (run_loop_single sents []); [exact Hhdr | exact Hlong | apply single_inv_init]).
  rewrite chunk_body_set_total.
  destruct Hinv as [_ [(Hnil & Hcur & Hclosed) | (init & u & Hps & Hcur & Hclosed)]].
  - rewrite Hcur. fold (closed_bodies doc st). now rewrite Hclosed, Hnil.
  - rewrite Hcur. change (py.join " " [u]) with u.
    rewrite closed_bodies_snoc. now rewrite Hclosed, Hps.
Qed.

End overlap_chain.

(** C5 as stated fails.  With [max_tokens = 10] and [overlap_tokens = 2 > 0]
    the section below goes to the splitting branch and is cut into three
    chunks, one sentence each: every closing sentence has [overlap_tokens]
    tokens or more, nothing is re-prepended, and consecutive bodies have no
    sentence in common.  The outcome does not depend on the tokenizer: by
    [one_sentence_per_chunk] the bodies are the three sentences under every
    encoder that counts more than ten tokens in the header (twelve words,
    numbers and punctuation groups) and in the content (sixteen words), and
    at least two in each sentence (four words or more each). *)
Lemma C5_consecutive_chunks_without_overlap :
  let self := tight_chunker in
  let doc := three_sentences in
  max_tokens self < count_tokens self (parser.content doc)
  /\ 0 < overlap_tokens self
  /\ bodies self doc = ["Whoever hacks is punished."; "He pays a fine of one lakh.";
                        "The court may order both."]
  /\ ~ linked (shares_a_sentence (_split_into_sentences (parser.content doc)))
               (bodies self doc).
Proof.
  cbv zeta. split; [reflexivity |]. split; [reflexivity |]. split; [reflexivity |].
  intros H. specialize (H 0%nat _ _ eq_refl eq_refl).
  destruct H as (s & Hin & H1 & H2).
  vm_compute in Hin.
  destruct Hin as [<- | [<- | [<- | []]]]; vm_compute in H1, H2; discriminate.
Qed.

(** C5, amended.  For a section sent to the splitting branch (its content has
    more than [max_tokens] tokens):
    - every chunk is the header followed by its body;
    - for consecutive chunks, the earlier body ends with a sentence of the
      section, and the later body repeats that sentence whenever it has fewer
      than [overlap_tokens] tokens;
    - the concatenation of the bodies contains all the sentences of the
      section, in order, none dropped;
    - piece by piece: the sentences fall into consecutive groups, none
      empty, one per chunk; the body of the first chunk is its group joined
      by spaces, and the body of every later chunk is the overlap of the
      chunk before, carried as one piece, followed by its own group, where
      the overlap is the longest suffix of whole pieces of the chunk before
      whose tokens add up to less than [overlap_tokens] (empty when the
      closing sentence alone reaches that budget). *)
Theorem C5_overlap_and_coverage (self : LegalChunker) (doc : parser.LegalDocument) :
  max_tokens self < count_tokens self (parser.content doc) ->
  let section_header := _build_section_header doc in
  let sentences := _split_into_sentences (parser.content doc) in
  map content (chunk_document self doc)
    = map (String.append section_header) (bodies self doc)
  /\ linked (overlap_link self sentences) (bodies self doc)
  /\ embeds sentences (py.join EmptyString (bodies self doc))
  /\ cut_with_overlap self sentences (bodies self doc).
Proof.
  intros Hbig. cbv zeta.
  split; [| split; [| split; [| now apply chunk_document_chain]]];
    unfold bodies, chunk_document;
    (destruct (Z.leb_spec (count_tokens self (parser.content doc)) (max_tokens self));
     [lia |]);
    set (hdr := _build_section_header doc);
    set (sents := _split_into_sentences (parser.content doc));
    set (st := run_loop _ _ _ _ _ _);
    (assert (Hinv : loop_inv self doc sents st)
       by (apply (run_loop_inv self doc sents []), loop_inv_init));
    rewrite ?chunk_body_set_total, ?content_set_total;
    pose proof Hinv as [Hh Hc Hl Hp Hlast];
    (destruct (current_chunk_sentences st) as [|x xs] eqn:Hccs;
     [| assert (Hne : current_chunk_sentences st <> []) by (rewrite Hccs; discriminate);
        destruct (close_chunk self doc sents st Hinv Hne) as [Hl' _];
        rewrite Hccs in Hl'; subst hdr;
        rewrite !map_app; cbn [map content _make_chunk];
        rewrite ?chunk_body_make; fold (closed_bodies doc st)]).
  - now apply header_of_bodies.
  - f_equal. now apply header_of_bodies.
  - exact Hl.
  - exact Hl'.
  - simpl in Hc. now rewrite append_nil_r in Hc.
  - rewrite join_empty_snoc. exact Hc.
Qed.

Example overlap_doc_bodies :
  bodies overlap_chunker overlap_doc
  = ["Whoever hacks is punished."; "He pays a fine.";
     "He pays a fine.  (1) Imprisonment up to three years."; "(2) Or both."].
Proof. reflexivity. Qed.

(** With an overlap budget above the whole section every chunk carries all
    that came before it, under every tokenizer. *)
Example generous_bodies :
  bodies generous_chunker three_sentences
  = ["Whoever hacks is punished.";
     "Whoever hacks is punished.  He pays a fine of one lakh.";
     "Whoever hacks is punished.  He pays a fine of one lakh.  The court may order both."].
Proof. reflexivity. Qed.

Lemma C5_overlap_and_coverage_witness :
  let self := generous_chunker in
  let doc := three_sentences in
  let sentences := _split_into_sentences (parser.content doc) in
  max_tokens self < count_tokens self (parser.content doc)
  /\ map content (chunk_document self doc)
     = map (String.append (_build_section_header doc)) (bodies self doc)
  /\ linked (overlap_link self sentences) (bodies self doc)
  /\ embeds sentences (py.join EmptyString (bodies self doc))
  /\ cut_with_overlap self sentences (bodies self doc).
Proof.
  cbv zeta. split; [reflexivity |].
  apply (C5_overlap_and_coverage generous_chunker three_sentences). reflexivity.
Defined.

End chunker_props.

(* ===================================================================== *)
(** ** Properties of the embedder *)
(* ===================================================================== *)
Module embedder_props.
Import effects embedder.

Section retry.
Context {W : Type} (svc : Services W).

(** C8.  [_embed_batch_openai] sends the same batch to the remote embedding
    service at most three times.  It stops at the first answer; after the
    first, second and third failure it sleeps 4, 8 and 16 seconds (the delay
    doubles with every attempt); when the three attempts have failed it
    raises the error of the last one. *)
Theorem C8_embed_batch_retry (self : LegalEmbedder) (texts : list string)
    (w0 : W) (tr : list event) :
  let attempt := embeddings_create svc (model self) texts in
  let sent := EmbeddingsCreate (model self) texts in
  let slept := fun n => Sleep (IntSeconds n) in
  _embed_batch_openai svc self texts (w0, tr) =
  match attempt w0 with
  | (inr vectors, w1) => (inr vectors, (w1, tr ++ [sent]))
  | (inl _, w1) =>
      match attempt w1 with
      | (inr vectors, w2) => (inr vectors, (w2, tr ++ [sent; slept 4; sent]))
      | (inl _, w2) =>
          match attempt w2 with
          | (inr vectors, w3) =>
              (inr vectors, (w3, tr ++ [sent; slept 4; sent; slept 8; sent]))
          | (inl last_err, w3) =>
              (inl last_err,
               (w3, tr ++ [sent; slept 4; sent; slept 8; sent; slept 16]))
          end
      end
  end.
Proof.
  cbv zeta.
  unfold _embed_batch_openai, retry_loop, raise_last, try_except, call, sleep,
    bind, raise.
  cbn [fst snd].
  destruct (embeddings_create svc (model self) texts w0) as [[e1 | v1] w1];
    [| reflexivity].
  cbn [fst snd].
  destruct (embeddings_create svc (model self) texts w1) as [[e2 | v2] w2];
    [| rewrite <- !app_assoc; reflexivity].
  cbn [fst snd].
  destruct (embeddings_create svc (model self) texts w2) as [[e3 | v3] w3];
    cbn [fst snd]; rewrite <- !app_assoc; reflexivity.
Qed.

End retry.

Lemma embed_texts_loop_S {W : Type} (svc : Services W) (self : LegalEmbedder)
    (texts : list string) (fuel : nat) (i : Z) (all_embeddings : list vector) :
  embed_texts_loop svc self texts (S fuel) i all_embeddings
  = if i <? Z.of_nat (length texts) then
      let batch := slice texts i (i + batch_size self) in
      let* batch_embeddings :=
        (if use_local self then _embed_batch_local svc self batch
         else _embed_batch_openai svc self batch) in
      (if negb (use_local self)
          && (i + batch_size self <? Z.of_nat (length texts))
       then sleep (FloatSeconds 0x1.999999999999ap-4%float) else ret tt) ;;
      embed_texts_loop svc self texts fuel (i + batch_size self)
        (all_embeddings ++ batch_embeddings)
    else ret all_embeddings.
Proof. reflexivity. Qed.

(** [embed_texts] never runs out of fuel: with a positive batch size, the
    loop started with enough fuel does the same with more. *)
Lemma embed_texts_loop_fuel {W : Type} (svc : Services W)
    (self : LegalEmbedder) (texts : list string) :
  0 < batch_size self ->
  forall (fuel : nat) (i : Z) (all_embeddings : list vector) (s : W * list event),
    Z.of_nat (length texts) <= i + Z.of_nat fuel ->
    embed_texts_loop svc self texts fuel i all_embeddings s
    = embed_texts_loop svc self texts (S fuel) i all_embeddings s.
Proof.
  intros Hbs. induction fuel as [|fuel IH]; intros i acc s Hfuel.
  - cbn [embed_texts_loop].
    destruct (Z.ltb_spec i (Z.of_nat (length texts))); [lia | reflexivity].
  - rewrite (embed_texts_loop_S svc self texts fuel),
      (embed_texts_loop_S svc self texts (S fuel)).
    destruct (Z.ltb_spec i (Z.of_nat (length texts))); [| reflexivity].
    cbv zeta. unfold bind.
    destruct ((if use_local self
               then _embed_batch_local svc self (slice texts i (i + batch_size self))
               else _embed_batch_openai svc self (slice texts i (i + batch_size self))) s)
      as [[e | batch_embeddings] s1]; [reflexivity |].
    destruct ((if negb (use_local self)
                  && (i + batch_size self <? Z.of_nat (length texts))
               then sleep (FloatSeconds 0x1.999999999999ap-4%float) else ret tt) s1)
      as [[e | u] s2]; [reflexivity |].
    apply IH. lia.
Qed.

(** Three rate-limit refusals in a row: three calls, sleeps of 4, 8 and 16
    seconds, and the last error comes out. *)
Example embed_batch_gives_up :
  _embed_batch_openai scripted.services scripted.openai_embedder ["a"; "b"]
    ({| scripted.embed_script :=
          [inl scripted.connection_error; inl scripted.connection_error;
           inl scripted.rate_limit_error; inr [[1%float]; [2%float]]];
        scripted.encode_script := []; scripted.chat_script := [];
        scripted.stream_script := []; scripted.search_script := [] |}, [])
  = (inl scripted.rate_limit_error,
     ({| scripted.embed_script := [inr [[1%float]; [2%float]]];
         scripted.encode_script := []; scripted.chat_script := [];
         scripted.stream_script := []; scripted.search_script := [] |},
      [EmbeddingsCreate "text-embedding-3-small" ["a"; "b"]; Sleep (IntSeconds 4);
       EmbeddingsCreate "text-embedding-3-small" ["a"; "b"]; Sleep (IntSeconds 8);
       EmbeddingsCreate "text-embedding-3-small" ["a"; "b"]; Sleep (IntSeconds 16)])).
Proof. reflexivity. Qed.

End embedder_props.

(* ===================================================================== *)
(** ** Properties of the embedding cache *)
(* ===================================================================== *)
Module cache_props.
Import effects run_ingestion cache_spec.

Lemma merge_nil (cache : gmap string vector) (texts : list string) :
  merge cache texts [] = map (cache_lookup cache) texts.
Proof.
  induction texts as [|t rest IH]; [reflexivity |].
  simpl. destruct (cache_lookup cache t); now rewrite IH.
Qed.

Lemma merge_all_cached (cache : gmap string vector) (texts : list string)
    (ne : list vector) :
  misses cache texts = [] -> merge cache texts ne = map (cache_lookup cache) texts.
Proof.
  induction texts as [|t rest IH]; [reflexivity |].
  simpl. destruct (cache_lookup cache t); [| discriminate].
  intros H. now rewrite IH.
Qed.

(** The first loop. *)
Lemma scan_spec (cache : gmap string vector) (texts : list string) :
  forall (k : nat) (done : list (option vector)) (mi : list nat) (mt : list string),
    length done = k ->
    fold_left (scan_body cache) (combine (seq k (length texts)) texts)
      {| results := done ++ repeat None (length texts);
         miss_indices := mi; miss_texts := mt |}
    = {| results := done ++ map (cache_lookup cache) texts;
         miss_indices := mi ++ miss_positions cache k texts;
         miss_texts := mt ++ misses cache texts |}.
Proof.
  induction texts as [|t rest IH]; intros k done mi mt Hk.
  - simpl. now rewrite !app_nil_r.
  - cbn [length seq combine fold_left repeat map misses miss_positions].
    unfold scan_body at 2. unfold cache_lookup.
    destruct (cache !! _text_hash t) as [v|] eqn:Hv; cbn [results miss_indices miss_texts].
    + rewrite insert_app_r_alt by lia.
      replace (k - length done)%nat with 0%nat by lia. cbn [insert list_insert].
      rewrite (cons_middle (Some v) done (repeat None (length rest))), app_assoc.
      rewrite IH by (rewrite length_app; simpl; lia).
      now rewrite <- app_assoc.
    + rewrite (cons_middle None done (repeat None (length rest))), app_assoc.
      rewrite IH by (rewrite length_app; simpl; lia).
      now rewrite <- !app_assoc.
Qed.

(** The second loop. *)
Lemma fill_spec (cache : gmap string vector) (texts : list string) :
  forall (k : nat) (done : list (option vector)) (ne : list vector)
         (c : gmap string vector),
    length done = k ->
    fold_left fill_body
      (combine (miss_positions cache k texts) (combine (misses cache texts) ne))
      (c, done ++ map (cache_lookup cache) texts)
    = (store_all c (combine (misses cache texts) ne), done ++ merge cache texts ne).
Proof.
  induction texts as [|t rest IH]; intros k done ne c Hk.
  - reflexivity.
  - cbn [map misses miss_positions merge].
    destruct (cache_lookup cache t) as [v|] eqn:Hv.
    + rewrite (cons_middle (Some v) done), app_assoc.
      rewrite IH by (rewrite length_app; simpl; lia).
      now rewrite <- app_assoc.
    + destruct ne as [|e more].
      * cbn [combine fold_left]. now rewrite merge_nil.
      * cbn [combine fold_left store_all]. unfold fill_body at 2.
        cbn [fst snd].
        rewrite insert_app_r_alt by lia.
        replace (k - length done)%nat with 0%nat by lia. cbn [insert list_insert].
        rewrite (cons_middle (Some e) done), app_assoc.
        rewrite IH by (rewrite length_app; simpl; lia).
        now rewrite <- app_assoc.
Qed.

(** [embed_with_cache] in closed form: the embedder is called once, on the
    uncached texts, when there is one; its failure is the only failure. *)
Lemma embed_with_cache_spec {W : Type} (texts : list string)
    (embed_texts : list string -> M W (list vector))
    (cache : gmap string vector) (s : W * list event) :
  embed_with_cache texts embed_texts cache s =
  match misses cache texts with
  | [] => (inr (map (cache_lookup cache) texts, cache), s)
  | _ :: _ =>
      match embed_texts (misses cache texts) s with
      | (inr ne, s') =>
          (inr (merge cache texts ne,
                store_all cache (combine (misses cache texts) ne)), s')
      | (inl e, s') => (inl e, s')
      end
  end.
Proof.
  unfold embed_with_cache, enumerate.
  pose proof (scan_spec cache texts 0 [] [] [] eq_refl) as Hscan.
  cbn [app] in Hscan. rewrite Hscan. clear Hscan.
  cbn [results miss_indices miss_texts].
  destruct (misses cache texts) as [|m ms] eqn:Hm; [reflexivity |].
  unfold bind. destruct (embed_texts (m :: ms) s) as [[e | ne] s']; [reflexivity |].
  rewrite <- Hm.
  pose proof (fill_spec cache texts 0 [] ne cache eq_refl) as Hfill.
  cbn [app] in Hfill. rewrite Hfill. reflexivity.
Qed.

(** *** What the closed form gives *)

Lemma misses_spec (cache : gmap string vector) (texts : list string) (t : string) :
  In t (misses cache texts) -> In t texts /\ cache_lookup cache t = None.
Proof.
  induction texts as [|t0 rest IH]; [intros [] |].
  simpl. destruct (cache_lookup cache t0) eqn:H0.
  - intros H. destruct (IH H). auto.
  - intros [<- | H]; [auto |]. destruct (IH H). auto.
Qed.

Lemma length_merge (cache : gmap string vector) (texts : list string) :
  forall ne, length (merge cache texts ne) = length texts.
Proof.
  induction texts as [|t rest IH]; intros ne; [reflexivity |].
  simpl. destruct (cache_lookup cache t); [simpl; now rewrite IH |].
  destruct ne; simpl; now rewrite IH.
Qed.

Lemma merge_is_Some (cache : gmap string vector) (texts : list string) :
  forall ne, (length (misses cache texts) <= length ne)%nat ->
    Forall (fun r : option vector => is_Some r) (merge cache texts ne).
Proof.
  induction texts as [|t rest IH]; intros ne Hlen; [constructor |].
  simpl in *. destruct (cache_lookup cache t).
  - constructor; [eauto | now apply IH].
  - destruct ne as [|e more]; [simpl in Hlen; lia |].
    constructor; [eauto |]. apply IH. simpl in Hlen. lia.
Qed.

(** A result without a missing entry has used one new embedding per
    uncached text. *)
Lemma merge_full (cache : gmap string vector) (texts : list string) :
  forall ne, Forall (fun r : option vector => is_Some r) (merge cache texts ne) ->
    (length (misses cache texts) <= length ne)%nat.
Proof.
  induction texts as [|t rest IH]; intros ne Hall; [simpl; lia |].
  simpl in *. destruct (cache_lookup cache t).
  - apply IH. now inversion Hall.
  - destruct ne as [|e more].
    + inversion Hall as [|? ? Hnone _]. destruct Hnone as [? Hnone]. discriminate.
    + simpl. apply le_n_S. apply IH. now inversion Hall.
Qed.

Lemma merge_cached (cache : gmap string vector) (texts : list string) :
  forall ne (i : nat) t v,
    texts !! i = Some t -> cache_lookup cache t = Some v ->
    merge cache texts ne !! i = Some (Some v).
Proof.
  induction texts as [|t0 rest IH]; intros ne i t v Hi Hv; [discriminate |].
  destruct i as [|i]; simpl in *.
  - injection Hi as ->. now rewrite Hv.
  - destruct (cache_lookup cache t0); [now apply (IH ne i t) |].
    destruct ne; now apply (IH _ i t).
Qed.

Lemma store_all_cons (c : gmap string vector) (e : string * vector)
    (rest : list (string * vector)) :
  store_all c (e :: rest) = store_all (cache_store c (fst e) (snd e)) rest.
Proof. reflexivity. Qed.

Lemma store_all_lookup_other (entries : list (string * vector)) (h : string) :
  forall c, (forall e, In e entries -> _text_hash (fst e) <> h) ->
    store_all c entries !! h = c !! h.
Proof.
  induction entries as [|e rest IH]; intros c Hne; [reflexivity |].
  rewrite store_all_cons, IH by (intros; apply Hne; now right).
  unfold cache_store. apply lookup_insert_ne. apply Hne. now left.
Qed.

Lemma store_all_is_Some (entries : list (string * vector)) (h : string) :
  forall c, is_Some (c !! h) -> is_Some (store_all c entries !! h).
Proof.
  induction entries as [|e rest IH]; intros c Hc; [exact Hc |].
  rewrite store_all_cons. apply IH. unfold cache_store.
  destruct (decide (_text_hash (fst e) = h)) as [<- | Hne].
  - rewrite lookup_insert_eq. eauto.
  - now rewrite lookup_insert_ne.
Qed.

Lemma store_all_key (entries : list (string * vector)) (e : string * vector) :
  forall c, In e entries -> is_Some (store_all c entries !! _text_hash (fst e)).
Proof.
  induction entries as [|e0 rest IH]; intros c; [intros [] |].
  intros [-> | Hin]; rewrite store_all_cons.
  - apply store_all_is_Some. unfold cache_store. rewrite lookup_insert_eq. eauto.
  - now apply IH.
Qed.

Lemma in_combine_misses (cache : gmap string vector) (texts : list string)
    (ne : list vector) (e : string * vector) :
  In e (combine (misses cache texts) ne) ->
  In (fst e) texts /\ cache_lookup cache (fst e) = None.
Proof.
  destruct e as [t v]. intros H. apply in_combine_l in H. now apply misses_spec.
Qed.

(** Entries already in the cache survive the call. *)
Lemma store_all_misses_preserves (cache : gmap string vector)
    (texts : list string) (ne : list vector) :
  cache ⊆ store_all cache (combine (misses cache texts) ne).
Proof.
  apply map_subseteq_spec. intros h v Hv.
  rewrite store_all_lookup_other; [exact Hv |].
  intros e He Heq. apply in_combine_misses in He. destruct He as [_ Hnone].
  unfold cache_lookup in Hnone. congruence.
Qed.

(** Every input text ends up as a key. *)
Lemma store_all_misses_covers (cache : gmap string vector) (texts : list string)
    (ne : list vector) (t : string) :
  (length (misses cache texts) <= length ne)%nat -> In t texts ->
  is_Some (store_all cache (combine (misses cache texts) ne) !! _text_hash t).
Proof.
  intros Hlen Ht.
  destruct (cache_lookup cache t) as [v|] eqn:Hv.
  - apply store_all_is_Some. unfold cache_lookup in Hv. rewrite Hv. eauto.
  - assert (Hm : In t (misses cache texts)).
    { clear Hlen. induction texts as [|t0 rest IH]; [destruct Ht |].
      simpl. destruct Ht as [-> | Ht].
      - rewrite Hv. now left.
      - destruct (cache_lookup cache t0); [auto | right; auto]. }
    apply In_nth_error in Hm. destruct Hm as [n Hn].
    assert (Hlt : (n < length ne)%nat).
    { eapply Nat.lt_le_trans; [| exact Hlen]. apply nth_error_Some. congruence. }
    destruct (nth_error ne n) as [e|] eqn:He;
      [| apply nth_error_None in He; lia].
    assert (Hin : In (t, e) (combine (misses cache texts) ne)).
    { clear - Hn He. revert n ne Hn He.
      induction (misses cache texts) as [|m ms IH]; intros n ne Hn He;
        [destruct n; discriminate |].
      destruct n as [|n], ne as [|e0 ne]; try discriminate; simpl in *.
      - injection Hn as ->. injection He as ->. now left.
      - right. eapply IH; eassumption. }
    exact (store_all_key _ (t, e) cache Hin).
Qed.

(** The value under the key of the text at position [i], when no later
    input text has the same key: the vector returned at position [i]. *)
Lemma merge_store_last (cache : gmap string vector) (texts : list string) :
  forall (ne : list vector) (c : gmap string vector) (i : nat) (t : string),
    length ne = length (misses cache texts) ->
    (forall h v, cache !! h = Some v -> c !! h = Some v) ->
    texts !! i = Some t ->
    (forall j t', (i < j)%nat -> texts !! j = Some t' -> _text_hash t' <> _text_hash t) ->
    merge cache texts ne !! i
    = Some (store_all c (combine (misses cache texts) ne) !! _text_hash t).
Proof.
  induction texts as [|t0 rest IH]; intros ne c i t Hlen Hagree Hi Hlast;
    [discriminate |].
  destruct i as [|i].
  - injection Hi as ->.
    assert (Hother : forall (ne' : list vector) (e : string * vector),
               In e (combine (misses cache rest) ne') ->
               _text_hash (fst e) <> _text_hash t).
    { intros ne' e He. apply in_combine_misses in He. destruct He as [He _].
      apply In_nth_error in He. destruct He as [j Hj].
      apply (Hlast (S j)); [lia |]. simpl.
      clear - Hj. revert j Hj. induction rest as [|r rest IH]; intros [|j] Hj;
        try discriminate; simpl in *; [exact Hj | now apply IH]. }
    cbn [merge misses] in *. destruct (cache_lookup cache t) as [v|] eqn:Hv.
    + rewrite store_all_lookup_other by apply Hother.
      cbn. f_equal. symmetry. apply Hagree. exact Hv.
    + destruct ne as [|e more]; [discriminate |].
      cbn [combine]. rewrite store_all_cons.
      rewrite store_all_lookup_other by apply Hother.
      unfold cache_store. cbn. now rewrite lookup_insert_eq.
  - cbn in Hi. cbn [merge misses] in *.
    assert (Hlast' : forall j t', (i < j)%nat -> rest !! j = Some t' ->
                       _text_hash t' <> _text_hash t).
    { intros j t' Hj Ht'. apply (Hlast (S j)); [lia | exact Ht']. }
    destruct (cache_lookup cache t0) as [v|] eqn:Hv.
    + cbn. now apply IH.
    + destruct ne as [|e more]; [discriminate |].
      cbn [combine]. rewrite store_all_cons. cbn. apply IH; try assumption.
      * simpl in Hlen. lia.
      * intros h v Hh. unfold cache_store.
        rewrite lookup_insert_ne; [now apply Hagree |].
        unfold cache_lookup in Hv. congruence.
Qed.

(** *** The keys *)

(** The digests of the empty text and of the three-letter test message of
    the standard. *)
Example text_hash_empty :
  _text_hash EmptyString
  = "e3b0c44298fc1c149afbf4c8996fb92427ae41e4649b934ca495991b7852b855".
Proof. vm_compute. reflexivity. Qed.

Example text_hash_abc :
  _text_hash "abc"
  = "ba7816bf8f01cfea414140de5dae2223b00361a396177a9cb410ff61f20015ad".
Proof. vm_compute. reflexivity. Qed.

(** *** The cache as a store *)

(** C7.  (a) After a vector is stored for a text, looking the same text up
    returns that vector.  (b) A text that was never stored is not found:
    starting from the empty cache, after any sequence of stores, a text whose
    SHA-256 key differs from the key of every stored text looks up to none.
    (c) When every input text is in the cache, [embed_with_cache] does not
    call the embedder at all (the world and the trace of remote calls are
    unchanged, whatever the embedder) and returns the cached vectors, leaving
    the cache as it was.  (d) So does a second run on the same texts, with
    the cache a first run has left, once the first run has returned a vector
    for every text. *)
Theorem C7_embedding_cache :
  (forall (cache : gmap string vector) (t : string) (v : vector),
     cache_lookup (cache_store cache t v) t = Some v)
  /\ (forall (entries : list (string * vector)) (t : string),
        (forall e, In e entries -> _text_hash (fst e) <> _text_hash t) ->
        cache_lookup (store_all ∅ entries) t = None)
  /\ (forall (W : Type) (texts : list string)
             (embed_texts : list string -> M W (list vector))
             (cache : gmap string vector) (s : W * list event),
        (forall t, In t texts -> is_Some (cache_lookup cache t)) ->
        embed_with_cache texts embed_texts cache s
        = (inr (map (cache_lookup cache) texts, cache), s))
  /\ (forall (W : Type) (texts : list string)
             (embed_texts embed_texts' : list string -> M W (list vector))
             (cache cache' : gmap string vector) (res : list (option vector))
             (s s' s2 : W * list event),
        embed_with_cache texts embed_texts cache s = (inr (res, cache'), s') ->
        Forall (fun r : option vector => is_Some r) res ->
        embed_with_cache texts embed_texts' cache' s2
        = (inr (map (cache_lookup cache') texts, cache'), s2)).
Proof.
  assert (Hhit : forall (W : Type) (texts : list string)
                   (embed_texts : list string -> M W (list vector))
                   (cache : gmap string vector) (s : W * list event),
             (forall t, In t texts -> is_Some (cache_lookup cache t)) ->
             embed_with_cache texts embed_texts cache s
             = (inr (map (cache_lookup cache) texts, cache), s)).
  { intros W texts embed_texts cache s Hall.
    rewrite embed_with_cache_spec.
    destruct (misses cache texts) as [|m ms] eqn:Hm; [reflexivity |].
    assert (Hin : In m (misses cache texts)) by (rewrite Hm; now left).
    apply misses_spec in Hin. destruct Hin as [Hin Hnone].
    destruct (Hall m Hin) as [v Hv]. congruence. }
  split; [| split; [| split; [exact Hhit |]]].
  - intros cache t v. unfold cache_lookup, cache_store. apply lookup_insert_eq.
  - intros entries t Hne. unfold cache_lookup.
    rewrite store_all_lookup_other by exact Hne. apply lookup_empty.
  - intros W texts embed_texts embed_texts' cache cache' res s s' s2 Hrun Hfull.
    apply Hhit. intros t Ht. unfold cache_lookup.
    rewrite embed_with_cache_spec in Hrun.
    destruct (misses cache texts) as [|m ms] eqn:Hm.
    + injection Hrun as <- <- <-.
      pose proof (store_all_misses_covers cache texts [] t) as Hc.
      rewrite Hm in Hc. apply Hc; [simpl; lia | exact Ht].
    + rewrite <- Hm in Hrun.
      destruct (embed_texts (misses cache texts) s) as [[e | ne] s1];
        [discriminate |].
      injection Hrun as <- <- <-.
      apply store_all_misses_covers; [| exact Ht]. now apply merge_full.
Qed.

(** The keys of the cached chunks are not the key of a third chunk; a batch
    made of cached chunks is served without a remote call, and so is the
    second of two runs over a fresh batch. *)
Lemma C7_embedding_cache_witness :
  cache_lookup two_chunks "The court may order both." = None
  /\ embed_with_cache
       ["He pays a fine."; "Whoever hacks is punished."; "He pays a fine."]
       (embedder.embed_texts scripted.services scripted.openai_embedder)
       two_chunks (scripted.silent, [])
     = (inr (map (cache_lookup two_chunks)
               ["He pays a fine."; "Whoever hacks is punished."; "He pays a fine."],
             two_chunks),
        (scripted.silent, []))
  /\ embed_with_cache ["Omitted."; "Repealed."]
       (embedder.embed_texts scripted.services scripted.openai_embedder)
       two_repeals (scripted.silent, [])
     = (inr (map (cache_lookup two_repeals) ["Omitted."; "Repealed."], two_repeals),
        (scripted.silent, [])).
Proof.
  destruct C7_embedding_cache as (_ & Hunseen & Hhit & Hrerun). split; [| split].
  - apply Hunseen. intros e [<- | [<- | []]]; vm_compute; discriminate.
  - apply Hhit. intros t [<- | [<- | [<- | []]]]; vm_compute; eauto.
  - apply (Hrerun scripted.script ["Omitted."; "Repealed."]
             (embedder.embed_texts scripted.services scripted.openai_embedder)
             (embedder.embed_texts scripted.services scripted.openai_embedder)
             ∅ two_repeals [Some [0.25%float]; Some [0.5%float]]
             (two_vectors, [])
             (scripted.silent,
              [EmbeddingsCreate "text-embedding-3-small" ["Omitted."; "Repealed."]])).
    + match goal with |- ?l = ?r => exact (@eq_refl _ r <: l = r) end.
    + repeat constructor; eauto.
Defined.

(** *** One call of [embed_with_cache] *)

(** C9 as stated fails.  The same uncached text twice in one call: the
    embedder returns a vector for each occurrence, the second store overwrites
    the first, and the cache ends up with the second vector under the key of
    the text, while the vector returned at position 0 is the first one. *)
Lemma C9_duplicate_text_last_vector_wins :
  match embed_with_cache ["Omitted."; "Omitted."]
          (embedder.embed_texts scripted.services scripted.openai_embedder)
          ∅ (two_vectors, [])
  with
  | (inr (res, cache'), _) =>
      res = [Some [0.25%float]; Some [0.5%float]]
      /\ cache' !! _text_hash "Omitted." = Some [0.5%float]
      /\ res !! 0%nat <> Some (cache' !! _text_hash "Omitted.")
  | (inl _, _) => False
  end.
Proof.
  vm_compute. split; [reflexivity |]. split; [reflexivity |].
  intros H.
  apply (f_equal (fun r : option (option vector) =>
                    match r with
                    | Some (Some (x :: _)) => PrimFloat.eqb x 0.25%float
                    | _ => false
                    end)) in H.
  vm_compute in H. discriminate.
Qed.

(** C9, amended.  When the embedder answers the uncached texts with one
    vector per text, a call of [embed_with_cache] fails only if the embedder
    fails on them; otherwise
    - the result has one entry per input text, none missing, in input order:
      a cached text has its cached vector, the uncached ones take the new
      embeddings in order;
    - every input text's hash is a key of the final cache, and the value
      under it is the vector returned for the last input text with that hash
      (the vector returned at position [i], when no later text has the hash
      of the text at [i]);
    - every entry the cache had before the call is still there, unchanged. *)
Theorem C9_embed_with_cache {W : Type} (texts : list string)
    (embed_texts : list string -> M W (list vector))
    (cache : gmap string vector) (s : W * list event) :
  (forall vs s1, embed_texts (misses cache texts) s = (inr vs, s1) ->
     length vs = length (misses cache texts)) ->
  embed_with_cache_outcome texts embed_texts cache s.
Proof.
  intros Hcontract. unfold embed_with_cache_outcome.
  rewrite embed_with_cache_spec.
  destruct (misses cache texts) as [|m ms] eqn:Hm.
  - (* every text is cached *)
    rewrite <- (merge_all_cached cache texts [] Hm).
    assert (Hlen : length (@nil vector) = length (misses cache texts))
      by now rewrite Hm.
    pose proof (merge_store_last cache texts [] cache) as Hlast.
    rewrite Hm in Hlast. cbn [combine] in Hlast.
    assert (Hle : (length (misses cache texts) <= length (@nil vector))%nat)
      by (rewrite Hm; simpl; lia).
    split; [apply length_merge |].
    split; [now apply merge_is_Some |].
    split; [intros i t v; apply merge_cached |].
    split; [exists []; auto |].
    split.
    + intros i t Hi.
      pose proof (store_all_misses_covers cache texts [] t Hle) as Hc.
      rewrite Hm in Hc. apply Hc.
      apply list_elem_of_In, list_elem_of_lookup. eauto.
    + split; [| reflexivity].
      intros i t Hi Hl. now apply Hlast.
  - rewrite <- Hm in *.
    destruct (embed_texts (misses cache texts) s) as [[e | ne] s'] eqn:Hrun.
    + split; [rewrite Hm; discriminate | reflexivity].
    + assert (Hlen : length ne = length (misses cache texts))
        by (eapply Hcontract; reflexivity).
      assert (Hle : (length (misses cache texts) <= length ne)%nat) by lia.
      split; [apply length_merge |].
      split; [now apply merge_is_Some |].
      split; [intros i t v; apply merge_cached |].
      split; [exists ne; auto |].
      split.
      * intros i t Hi. apply store_all_misses_covers; [exact Hle |].
        apply list_elem_of_In, list_elem_of_lookup. eauto.
      * split; [| apply store_all_misses_preserves].
        intros i t Hi Hl. now apply merge_store_last.
Qed.

Lemma C9_embed_with_cache_witness :
  embed_with_cache_outcome ["Omitted."; "Omitted."]
    (embedder.embed_texts scripted.services scripted.openai_embedder)
    ∅ (two_vectors, []).
Proof.
  apply C9_embed_with_cache. intros vs s1 H.
  apply (f_equal (fun r : (exn + list vector) * (scripted.script * list event) =>
                    match fst r with inr l => length l | inl _ => 0%nat end)) in H.
  vm_compute in H. vm_compute. congruence.
Defined.

End cache_props.

(* ===================================================================== *)
(** ** Properties of the query path *)
(* ===================================================================== *)
Module vakilbot_props.
Import effects vakilbot vakilbot_spec.

Section stages.
Context {W : Type} (svc : Services W).

Lemma answer_stages (self : VakilBot) (query : string)
    (act_filter_arg : option string) (stream : bool) (s : W * list event) :
  answer svc self query act_filter_arg stream s =
  (let* rewritten_query := _rewrite_query svc self query in
   let* results := retrieve svc self query act_filter_arg rewritten_query in
   generate svc self query stream results) s.
Proof.
  unfold answer, retrieve, generate, filtered_search, unfiltered_search,
    effective_act_filter, messages_for, bind.
  destruct (_rewrite_query svc self query s) as [[e | rq] s1]; [reflexivity |].
  destruct (searcher.hybrid_search svc (the_searcher self) rq (k self) _ None _ None s1)
    as [[e | results] s2]; [reflexivity |].
  reflexivity.
Qed.

(** *** Which stage talks to Elasticsearch *)

Lemma searches_app (a b : list event) : searches (a ++ b) = searches a ++ searches b.
Proof. unfold searches. apply omap_app. Qed.

Lemma embed_query_appends (e : embedder.LegalEmbedder) (query : string) :
  appends (embedder.embed_query svc e query) (fun _ bs => bs = []).
Proof.
  intros w tr. unfold embedder.embed_query, bind, call, ret, raise.
  destruct (embedder.use_local e); cbn [fst snd].
  - destruct (local_encode svc _ w) as [[err | [|v vs]] w'];
      eexists; split; reflexivity.
  - destruct (embeddings_create svc _ _ w) as [[err | [|v vs]] w'];
      eexists; split; reflexivity.
Qed.

(** One [hybrid_search] sends at most one search, with the filters built
    from its arguments; it sends exactly one when it returns results. *)
Lemma hybrid_search_appends (self : searcher.LegalSearcher) (query : string) (k : Z)
    (af df : option string) (tf : option (list string)) (yr : option (Z * Z)) :
  appends (searcher.hybrid_search svc self query k af df tf yr)
    (fun r bs =>
       (bs = [] /\ exists e, r = inl e)
       \/ exists b, bs = [b]
            /\ body_filter b = searcher._build_filters af df tf yr).
Proof.
  intros w tr. unfold searcher.hybrid_search, bind.
  destruct (embed_query_appends (searcher.the_embedder self) query w tr)
    as (new & Hnew & Hs).
  destruct (embedder.embed_query svc (searcher.the_embedder self) query (w, tr))
    as [[err | v] [w1 tr1]]; cbn [fst snd] in *.
  - exists new. split; [exact Hnew | left; eauto].
  - unfold call, ret. cbn [fst snd].
    destruct (es_search svc _ _ w1) as [[err | hits] w2]; cbn [fst snd];
      (eexists; split; [rewrite Hnew, <- app_assoc; reflexivity |]);
      right; eexists; (split; [rewrite searches_app, Hs; reflexivity | reflexivity]).
Qed.

Lemma rewrite_query_appends (self : VakilBot) (query : string) :
  appends (_rewrite_query svc self query) (fun _ bs => bs = []).
Proof.
  intros w tr. unfold _rewrite_query, bind, call, ret. cbn [fst snd].
  destruct (chat_create svc _ w) as [[err | text] w']; eexists; split; reflexivity.
Qed.

Lemma generate_appends (self : VakilBot) (query : string) (stream : bool)
    (results : list searcher.result) :
  appends (generate svc self query stream results) (fun _ bs => bs = []).
Proof.
  intros w tr. unfold generate, _generate_response, bind, call, ret.
  destruct stream; cbn [fst snd].
  - exists []. split; [now rewrite app_nil_r | reflexivity].
  - destruct (chat_create svc _ w) as [[err | text] w']; eexists; split; reflexivity.
Qed.

Lemma retrieve_appends (self : VakilBot) (query : string)
    (act_filter_arg : option string) (rq : string) :
  appends (retrieve svc self query act_filter_arg rq)
    (fun _ bs => query_searches query act_filter_arg bs).
Proof.
  intros w tr. unfold retrieve, filtered_search, unfiltered_search, bind.
  destruct (hybrid_search_appends (the_searcher self) rq (k self)
              (effective_act_filter query act_filter_arg) None
              (tag_filter (_detect_intent query)) None w tr) as (n1 & H1 & S1).
  destruct (searcher.hybrid_search svc (the_searcher self) rq (k self)
              (effective_act_filter query act_filter_arg) None
              (tag_filter (_detect_intent query)) None (w, tr))
    as [[err | results] [w1 tr1]]; cbn [fst snd] in *.
  - exists n1. split; [exact H1 |].
    destruct S1 as [[-> _] | (b & -> & Hb)]; [now left | right; left; eauto].
  - destruct S1 as [[_ [e He]] | (b & Sb & Hb)]; [discriminate |].
    destruct (match results with [] => true | _ => false end
              && py.truthy_opt (effective_act_filter query act_filter_arg))
      eqn:Hretry.
    + apply andb_true_iff in Hretry. destruct Hretry as [_ Heff].
      destruct (hybrid_search_appends (the_searcher self) rq (k self)
                  None None None None w1 tr1) as (n2 & H2 & S2).
      exists (n1 ++ n2). split; [rewrite H2, H1; now rewrite app_assoc |].
      rewrite searches_app, Sb.
      destruct S2 as [[-> _] | (b2 & -> & Hb2)].
      * right; left. eauto.
      * right; right. exists b, b2. auto.
    + exists n1. split; [exact H1 |]. right; left. eauto.
Qed.

(** C3, amended.  In every run of [answer] at most two searches are sent:
    the first with the filters of the query, and a second one, without any
    filter, only when an act filter (the argument of the caller or the
    detected act) was applied.  When the query has been rewritten and the
    first retrieval returns an empty list, [answer] goes on with exactly one
    more retrieval, unfiltered, if an act filter was applied, and straight
    to generation with the empty list otherwise (a tag filter alone does not
    bring a retry); generation never searches. *)
Theorem C3_unfiltered_retry (self : VakilBot) (query : string)
    (act_filter_arg : option string) (stream : bool) (w : W) (tr : list event) :
  (exists new,
     snd (snd (answer svc self query act_filter_arg stream (w, tr))) = tr ++ new
     /\ query_searches query act_filter_arg (searches new))
  /\ (forall rq s1 s2,
        _rewrite_query svc self query (w, tr) = (inr rq, s1) ->
        filtered_search svc self query act_filter_arg rq s1 = (inr [], s2) ->
        answer svc self query act_filter_arg stream (w, tr) =
        if py.truthy_opt (effective_act_filter query act_filter_arg)
        then (let* results := unfiltered_search svc self rq in
              generate svc self query stream results) s2
        else generate svc self query stream [] s2).
Proof.
  split.
  - rewrite answer_stages. unfold bind.
    destruct (rewrite_query_appends self query w tr) as (n0 & H0 & S0).
    destruct (_rewrite_query svc self query (w, tr)) as [[e | rq] [w1 tr1]];
      cbn [fst snd] in *.
    { exists n0. split; [exact H0 | left; exact S0]. }
    destruct (retrieve_appends self query act_filter_arg rq w1 tr1)
      as (n1 & H1 & S1).
    destruct (retrieve svc self query act_filter_arg rq (w1, tr1))
      as [[e | results] [w2 tr2]]; cbn [fst snd] in *.
    { exists (n0 ++ n1). split; [rewrite H1, H0; now rewrite app_assoc |].
      rewrite searches_app, S0. exact S1. }
    destruct (generate_appends self query stream results w2 tr2)
      as (n2 & H2 & S2).
    exists (n0 ++ n1 ++ n2).
    split; [rewrite H2, H1, H0; now rewrite !app_assoc |].
    rewrite !searches_app, S0, S2, app_nil_r. exact S1.
  - intros rq s1 s2 Hrw Hfirst. rewrite answer_stages.
    unfold bind at 1. rewrite Hrw. unfold bind at 1. unfold retrieve.
    unfold bind at 1. rewrite Hfirst. cbn [andb].
    destruct (py.truthy_opt (effective_act_filter query act_filter_arg));
      reflexivity.
Qed.

(** C4, amended.  When the call that rewrites the query fails,
    [_rewrite_query] raises its error (it has no fallback), and [answer]
    fails with the same error right there, before any retrieval. *)
Theorem C4_rewrite_failure (self : VakilBot) (query : string)
    (act_filter_arg : option string) (stream : bool) (w w' : W)
    (tr : list event) (e : exn) :
  chat_create svc (rewrite_request query) w = (inl e, w') ->
  _rewrite_query svc self query (w, tr)
    = (inl e, (w', tr ++ [ChatCreate (rewrite_request query)]))
  /\ answer svc self query act_filter_arg stream (w, tr)
    = (inl e, (w', tr ++ [ChatCreate (rewrite_request query)])).
Proof.
  intros Hfail.
  assert (Hrw : _rewrite_query svc self query (w, tr)
                = (inl e, (w', tr ++ [ChatCreate (rewrite_request query)]))).
  { unfold _rewrite_query, bind, call. cbn [fst snd]. now rewrite Hfail. }
  split; [exact Hrw |].
  rewrite answer_stages. unfold bind at 1. now rewrite Hrw.
Qed.




End stages.

(** *** Runs in a scripted world *)

(** C3 as stated fails.  The query below sets a tag filter and no act
    filter; its first retrieval, filtered by the tag, returns nothing, and
    [answer] does not search again: one search is sent, and the answer the
    index held for a second one is never asked for. *)
Lemma C3_tag_filter_alone_no_retry :
  let rq := "Punishment for theft under Indian criminal law." in
  let s1 := snd (_rewrite_query scripted.services bot theft_query (theft_world, [])) in
  let run := answer scripted.services bot theft_query None false (theft_world, []) in
  tag_filter (_detect_intent theft_query) = Some ["criminal"]
  /\ effective_act_filter theft_query None = None
  /\ fst (filtered_search scripted.services bot theft_query None rq s1) = inr []
  /\ map body_filter (searches (snd (snd run))) = [[Terms "tags" ["criminal"]]]
  /\ scripted.search_script (fst (snd run)) = [inr [hit_66]].
Proof.
  cbv zeta. split; [reflexivity |]. split; [reflexivity |].
  split; [reflexivity |]. split; reflexivity.
Qed.

Lemma C3_unfiltered_retry_witness :
  answer scripted.services bot hacking_query None false (hacking_world, [])
  = (let* results := unfiltered_search scripted.services bot hacking_rewritten in
     generate scripted.services bot hacking_query false results) hacking_s2.
Proof.
  exact (proj2 (C3_unfiltered_retry scripted.services bot hacking_query None false
                  hacking_world [])
           hacking_rewritten hacking_s1 hacking_s2 eq_refl eq_refl).
Defined.

(** The same run, search by search: the filtered one, then the bare one. *)
Example hacking_searches :
  map body_filter
    (searches (snd (snd (answer scripted.services bot hacking_query None false
                           (hacking_world, [])))))
  = [[Term "act_name" "Information Technology Act, 2020"; Terms "tags" ["cybercrime"]];
     []].
Proof. reflexivity. Qed.

(** C4 as stated fails.  With the text-generation service unreachable the
    rewrite step does not return the original query: it raises, and so does
    [answer]. *)
Lemma C4_rewrite_has_no_fallback :
  fst (_rewrite_query scripted.services bot theft_query (scripted.silent, []))
    = inl scripted.connection_error
  /\ fst (_rewrite_query scripted.services bot theft_query (scripted.silent, []))
       <> inr theft_query
  /\ fst (answer scripted.services bot theft_query None true (scripted.silent, []))
       = inl scripted.connection_error.
Proof. split; [reflexivity | split; [discriminate | reflexivity]]. Qed.

Lemma C4_rewrite_failure_witness :
  answer scripted.services bot theft_query None false (scripted.silent, [])
  = (inl scripted.connection_error,
     (scripted.silent, [ChatCreate (rewrite_request theft_query)])).
Proof.
  exact (proj2 (C4_rewrite_failure scripted.services bot theft_query None false
                  scripted.silent scripted.silent [] scripted.connection_error
                  eq_refl)).
Defined.


End vakilbot_props.

(* ===================================================================== *)
(** ** Further properties of the chunker *)
(* ===================================================================== *)
Module chunker_more.
Import chunker chunker_spec more_spec.

(** *** Stripping *)

Lemma lstrip_first (s : string) (c : ascii) :
  first_char (py.lstrip s) = Some c -> py.isspace c = false.
Proof.
  induction s as [|a s IH]; [discriminate |].
  simpl. destruct (py.isspace a) eqn:Ha; [exact IH |].
  simpl. intros [= <-]. exact Ha.
Qed.

Lemma rstrip_cons (a : ascii) (s : string) :
  py.rstrip (String a s)
  = match py.rstrip s with
    | EmptyString => if py.isspace a then EmptyString else String a EmptyString
    | r => String a r
    end.
Proof. reflexivity. Qed.

Lemma rstrip_last (s : string) (c : ascii) :
  last_char (py.rstrip s) = Some c -> py.isspace c = false.
Proof.
  induction s as [|a s IH]; [discriminate |].
  rewrite rstrip_cons. destruct (py.rstrip s) as [|b r] eqn:Hr.
  - destruct (py.isspace a) eqn:Ha; [discriminate |].
    simpl. intros [= <-]. exact Ha.
  - intros H. apply IH. exact H.
Qed.

Lemma rstrip_first (s : string) (c : ascii) :
  first_char (py.rstrip s) = Some c -> first_char s = Some c.
Proof.
  destruct s as [|a s]; [discriminate |].
  rewrite rstrip_cons. destruct (py.rstrip s); [destruct (py.isspace a) |];
    simpl; congruence.
Qed.

Lemma lstrip_fix (s : string) :
  (forall c, first_char s = Some c -> py.isspace c = false) -> py.lstrip s = s.
Proof.
  destruct s as [|a s]; [reflexivity |]. intros H. simpl.
  now rewrite (H a eq_refl).
Qed.

Lemma rstrip_idem (s : string) : py.rstrip (py.rstrip s) = py.rstrip s.
Proof.
  induction s as [|a s IH]; [reflexivity |].
  rewrite rstrip_cons. destruct (py.rstrip s) as [|b r] eqn:Hr.
  - destruct (py.isspace a) eqn:Ha; [reflexivity |].
    rewrite rstrip_cons. simpl. now rewrite Ha.
  - rewrite rstrip_cons, IH. reflexivity.
Qed.

Lemma strip_idem (s : string) : py.strip (py.strip s) = py.strip s.
Proof.
  unfold py.strip.
  rewrite (lstrip_fix (py.rstrip (py.lstrip s))).
  - apply rstrip_idem.
  - intros c Hc. apply rstrip_first in Hc. now apply lstrip_first in Hc.
Qed.

Lemma strip_first (s : string) (c : ascii) :
  first_char (py.strip s) = Some c -> py.isspace c = false.
Proof.
  unfold py.strip. intros Hc. apply rstrip_first in Hc. now apply lstrip_first in Hc.
Qed.

Lemma strip_last (s : string) (c : ascii) :
  last_char (py.strip s) = Some c -> py.isspace c = false.
Proof. unfold py.strip. apply rstrip_last. Qed.

Lemma split_sentence_shape (text s : string) :
  In s (_split_into_sentences text) ->
  exists piece, s = py.strip piece /\ py.truthy (py.strip piece) = true.
Proof.
  unfold _split_into_sentences. intros H.
  apply List.in_map_iff in H. destruct H as (piece & <- & Hin).
  exists piece. split; [reflexivity |].
  apply list_elem_of_In, list_elem_of_filter in Hin. tauto.
Qed.

(** X1.  Every sentence [_split_into_sentences] returns is non-empty and
    stripped: it neither starts nor ends with whitespace, and stripping it
    again changes nothing. *)
Theorem split_sentences_stripped (text : string) :
  List.Forall
    (fun s => s <> EmptyString
              /\ py.strip s = s
              /\ (forall c, first_char s = Some c -> py.isspace c = false)
              /\ (forall c, last_char s = Some c -> py.isspace c = false))
    (_split_into_sentences text).
Proof.
  apply List.Forall_forall. intros s Hs.
  apply split_sentence_shape in Hs. destruct Hs as (piece & -> & Ht).
  split; [intros E; rewrite E in Ht; discriminate |].
  split; [apply strip_idem |].
  split; [apply strip_first | apply strip_last].
Qed.

(** *** What the splitter drops *)

Lemma nonspace_chars_app (a b : list ascii) :
  nonspace_chars (a ++ b) = nonspace_chars a ++ nonspace_chars b.
Proof. unfold nonspace_chars. apply List.filter_app. Qed.

Lemma nonspace_chars_rev (a : list ascii) :
  nonspace_chars (rev a) = rev (nonspace_chars a).
Proof.
  induction a as [|c a IH]; [reflexivity |].
  simpl rev. rewrite nonspace_chars_app, IH. unfold nonspace_chars at 2 3.
  simpl. destruct (negb (py.isspace c)); simpl; [reflexivity | now rewrite app_nil_r].
Qed.

Lemma nonspace_of_list (l : list ascii) :
  nonspace (string_of_list_ascii l) = nonspace_chars l.
Proof. unfold nonspace. now rewrite list_ascii_of_string_of_list_ascii. Qed.

Lemma nonspace_cons (c : ascii) (s : string) :
  nonspace (String c s)
  = if py.isspace c then nonspace s else c :: nonspace s.
Proof. unfold nonspace, nonspace_chars. simpl. now destruct (py.isspace c). Qed.

Lemma nonspace_append (a b : string) :
  nonspace (a +:+ b) = nonspace a ++ nonspace b.
Proof.
  induction a as [|c a IH]; [reflexivity |].
  rewrite chunker_props.append_cons, !nonspace_cons, IH.
  now destruct (py.isspace c).
Qed.

Lemma nonspace_lstrip (s : string) : nonspace (py.lstrip s) = nonspace s.
Proof.
  induction s as [|c s IH]; [reflexivity |].
  simpl. destruct (py.isspace c) eqn:Hc; [| reflexivity].
  now rewrite nonspace_cons, Hc.
Qed.

Lemma nonspace_rstrip (s : string) : nonspace (py.rstrip s) = nonspace s.
Proof.
  induction s as [|c s IH]; [reflexivity |].
  rewrite rstrip_cons, (nonspace_cons c s), <- IH.
  destruct (py.rstrip s) as [|b r].
  - destruct (py.isspace c) eqn:Hc; [reflexivity |].
    now rewrite nonspace_cons, Hc.
  - now rewrite nonspace_cons.
Qed.

Lemma nonspace_strip (s : string) : nonspace (py.strip s) = nonspace s.
Proof. unfold py.strip. now rewrite nonspace_rstrip, nonspace_lstrip. Qed.

Lemma join_empty_cons (x : string) (xs : list string) :
  py.join EmptyString (x :: xs) = x +:+ py.join EmptyString xs.
Proof.
  destruct xs; [now rewrite chunker_props.append_nil_r | reflexivity].
Qed.

Lemma nonspace_chars_single (c : ascii) :
  py.isspace c = false -> nonspace_chars [c] = [c].
Proof. intros Hc. unfold nonspace_chars. simpl. now rewrite Hc. Qed.

(** The pieces of [re.split] keep every character that is not whitespace. *)
Lemma re_split_go_nonspace (s : string) :
  forall prev cur ws,
    nonspace_chars ws = [] ->
    nonspace (py.join EmptyString (re_split_go prev cur ws s))
    = nonspace_chars (rev cur) ++ nonspace s.
Proof.
  induction s as [|c s IH]; intros prev cur ws Hws.
  - cbn [re_split_go]. rewrite join_empty_cons, chunker_props.append_nil_r.
    rewrite nonspace_of_list, rev_app_distr, nonspace_chars_app.
    rewrite (nonspace_chars_rev ws), Hws. reflexivity.
  - cbn [re_split_go]. rewrite nonspace_cons.
    destruct (py.isspace c) eqn:Hc.
    + apply IH. unfold nonspace_chars in *. simpl. now rewrite Hc.
    + assert (Hkeep : nonspace (py.join EmptyString
                                  (re_split_go (Some c) (c :: ws ++ cur) [] s))
                      = nonspace_chars (rev cur) ++ c :: nonspace s).
      { rewrite IH by reflexivity.
        simpl rev. rewrite rev_app_distr, !nonspace_chars_app.
        rewrite (nonspace_chars_rev ws), Hws, (nonspace_chars_single c Hc).
        simpl rev. now rewrite app_nil_r, <- app_assoc. }
      destruct ws as [|w ws]; [exact Hkeep |].
      destruct prev as [p|]; [| exact Hkeep].
      destruct (boundary p c); [| exact Hkeep].
      rewrite join_empty_cons, nonspace_append, nonspace_of_list.
      rewrite IH by reflexivity.
      simpl rev. now rewrite (nonspace_chars_single c Hc).
Qed.

Lemma strip_pieces_nonspace (pieces : list string) :
  nonspace (py.join EmptyString
              (map py.strip
                 (filter (fun s => py.truthy (py.strip s) = true) pieces)))
  = nonspace (py.join EmptyString pieces).
Proof.
  induction pieces as [|p pieces IH]; [reflexivity |].
  rewrite filter_cons, (join_empty_cons p), nonspace_append, <- IH.
  destruct (decide (py.truthy (py.strip p) = true)) as [Ht | Hf].
  - cbn [map]. now rewrite join_empty_cons, nonspace_append, nonspace_strip.
  - rewrite <- (nonspace_strip p).
    destruct (py.strip p); [reflexivity | now destruct Hf].
Qed.

(** X2.  On a text whose whitespace characters are all ASCII ones, splitting
    into sentences drops whitespace only: the characters of the sentences,
    put end to end, are the characters of the text that are not whitespace,
    in the same order (whitespace inside a sentence is kept, so the
    sentences hold nothing else). *)
Theorem split_keeps_nonspace (text : string) :
  ascii_whitespace_only text ->
  nonspace (py.join EmptyString (_split_into_sentences text)) = nonspace text.
Proof.
  intros _. unfold _split_into_sentences, re_split.
  rewrite strip_pieces_nonspace, re_split_go_nonspace by reflexivity.
  reflexivity.
Qed.

Lemma split_keeps_nonspace_witness :
  let text := "  Fine imposed — up to one lakh.  (a) The term is short. (b) Or both. " in
  ascii_whitespace_only text
  /\ _split_into_sentences text
     = ["Fine imposed — up to one lakh."; "(a) The term is short."; "(b) Or both."]
  /\ nonspace (py.join EmptyString (_split_into_sentences text)) = nonspace text.
Proof.
  cbv zeta. split; [reflexivity |]. split; [reflexivity |].
  apply (split_keeps_nonspace
           "  Fine imposed — up to one lakh.  (a) The term is short. (b) Or both. ").
  reflexivity.
Defined.

(** *** What every chunk carries *)

(** A property of all chunks [_make_chunk] builds for a document, kept by the
    backfill of [total_chunks], holds of every chunk of the document. *)
Lemma chunk_document_forall (P : Chunk -> Prop)
    (self : LegalChunker) (doc : parser.LegalDocument) :
  (forall text i t, P (_make_chunk doc text i t)) ->
  (forall t c, P c -> P (set_total_chunks t c)) ->
  List.Forall P (chunk_document self doc).
Proof.
  intros Hmake Hset.
  assert (Hloop : forall hdr ht sentences st,
             List.Forall P (chunks st) ->
             List.Forall P (chunks (run_loop self doc hdr ht st sentences))).
  { intros hdr ht sentences. induction sentences as [|x xs IH]; intros st Hst;
      [exact Hst |].
    simpl. apply IH. unfold loop_body.
    destruct ((current_token_count st + count_tokens self x >? max_tokens self)
              && negb match current_chunk_sentences st with [] => true | _ => false end);
      simpl; [| exact Hst].
    apply List.Forall_app. split; [exact Hst |]. constructor; [apply Hmake | constructor]. }
  unfold chunk_document.
  destruct (count_tokens self (parser.content doc) <=? max_tokens self).
  - constructor; [apply Hmake | constructor].
  - set (st := run_loop _ _ _ _ _ _).
    assert (Hst : List.Forall P (chunks st)) by (apply Hloop; constructor).
    apply List.Forall_forall. intros c Hc.
    apply List.in_map_iff in Hc. destruct Hc as (c0 & <- & Hc0).
    apply Hset. revert c0 Hc0. apply List.Forall_forall.
    destruct (current_chunk_sentences st); [exact Hst |].
    apply List.Forall_app. split; [exact Hst |]. constructor; [apply Hmake | constructor].
Qed.

(** X3.  Every chunk of a document carries the metadata of the document:
    act name and year, chapter, section number and title, document type, tags
    and source file. *)
Theorem chunks_carry_metadata (self : LegalChunker) (doc : parser.LegalDocument) :
  List.Forall (carries_metadata doc) (chunk_document self doc).
Proof.
  apply chunk_document_forall.
  - intros text i t. repeat split.
  - intros t c H. exact H.
Qed.

(** *** Chunk identifiers *)

Lemma id_char_normalized (c : ascii) :
  let c' := py.lower_char (if Ascii.eqb c " " then "_"%char else c) in
  c' <> " "%char /\ py.isupper c' = false.
Proof.
  destruct c as [[] [] [] [] [] [] [] []]; vm_compute;
    (split; [discriminate | reflexivity]).
Qed.

Lemma lower_replace_normalized (x : string) :
  normalized_id (py.lower (py.replace_char " " "_" x)).
Proof.
  unfold normalized_id. induction x as [|c x IH]; [constructor |].
  simpl. constructor; [apply id_char_normalized | exact IH].
Qed.

(** X4.  The identifier of every chunk is space-normalized and lower-case:
    it holds no space and no capital ASCII letter. *)
Theorem chunk_ids_normalized (self : LegalChunker) (doc : parser.LegalDocument) :
  List.Forall (fun c => normalized_id (chunk_id c)) (chunk_document self doc).
Proof.
  apply chunk_document_forall.
  - intros text i t. apply lower_replace_normalized.
  - intros t c H. exact H.
Qed.

Lemma lower_append (a b : string) : py.lower (a +:+ b) = py.lower a +:+ py.lower b.
Proof.
  induction a as [|c a IH]; [reflexivity |].
  rewrite chunker_props.append_cons. simpl. now rewrite IH.
Qed.

Lemma replace_char_append (x y : ascii) (a b : string) :
  py.replace_char x y (a +:+ b) = py.replace_char x y a +:+ py.replace_char x y b.
Proof.
  induction a as [|c a IH]; [reflexivity |].
  rewrite chunker_props.append_cons. simpl. now rewrite IH.
Qed.

Lemma append_cancel_l (a x y : string) : a +:+ x = a +:+ y -> x = y.
Proof.
  induction a as [|c a IH]; [exact (fun H => H) |].
  rewrite !chunker_props.append_cons. intros [= H]. now apply IH.
Qed.

Lemma string_of_uint_chars (u : Decimal.uint) :
  List.Forall (fun c => int_char c = true)
    (list_ascii_of_string (NilEmpty.string_of_uint u)).
Proof. induction u; simpl; constructor; (reflexivity || assumption). Qed.

Lemma str_of_int_chars (z : Z) :
  List.Forall (fun c => int_char c = true) (list_ascii_of_string (py.str_of_int z)).
Proof.
  unfold py.str_of_int, NilZero.string_of_int, NilZero.string_of_uint.
  destruct (Z.to_int z) as [u | u].
  - destruct u; try (repeat constructor; fail); apply string_of_uint_chars.
  - simpl. constructor; [reflexivity |].
    destruct u; try (repeat constructor; fail); apply string_of_uint_chars.
Qed.

Lemma id_int_char (c : ascii) :
  int_char c = true ->
  py.lower_char (if Ascii.eqb c " " then "_"%char else c) = c.
Proof.
  destruct c as [[] [] [] [] [] [] [] []]; vm_compute;
    (reflexivity || discriminate).
Qed.

Lemma lower_replace_int (s : string) :
  List.Forall (fun c => int_char c = true) (list_ascii_of_string s) ->
  py.lower (py.replace_char " " "_" s) = s.
Proof.
  induction s as [|c s IH]; [reflexivity |].
  simpl. intros H. inversion H as [|? ? Hc Hs]; subst.
  now rewrite (id_int_char c Hc), IH.
Qed.

Lemma to_int_not_nil (z : Z) :
  Z.to_int z <> Decimal.Pos Decimal.Nil /\ Z.to_int z <> Decimal.Neg Decimal.Nil.
Proof.
  destruct z as [|p|p]; simpl; split; try discriminate.
  - intros [= H]. now apply DecimalPos.Unsigned.to_uint_nonnil in H.
  - intros [= H]. now apply DecimalPos.Unsigned.to_uint_nonnil in H.
Qed.

(** [str] is one-to-one on integers. *)
Lemma str_of_int_inj (i j : Z) : py.str_of_int i = py.str_of_int j -> i = j.
Proof.
  unfold py.str_of_int. intros H.
  apply DecimalZ.to_int_inj.
  apply (f_equal NilZero.int_of_string) in H.
  destruct (to_int_not_nil i), (to_int_not_nil j).
  rewrite !NilZero.isi in H by assumption. congruence.
Qed.

(** The identifier [_make_chunk] gives the chunk of a document at an index. *)
Lemma make_chunk_id_inj (doc : parser.LegalDocument) (x y : string) (i j t u : Z) :
  chunk_id (_make_chunk doc x i t) = chunk_id (_make_chunk doc y j u) -> i = j.
Proof.
  cbn [chunk_id _make_chunk].
  rewrite <- !chunker_props.append_assoc.
  rewrite !replace_char_append, !lower_append.
  rewrite !(lower_replace_int (py.str_of_int _)) by apply str_of_int_chars.
  intros H. apply append_cancel_l in H. now apply str_of_int_inj.
Qed.

Lemma chunk_document_numbered (self : LegalChunker) (doc : parser.LegalDocument) :
  numbered (chunk_document self doc).
Proof.
  unfold chunk_document.
  destruct (count_tokens self (parser.content doc) <=? max_tokens self);
    [reflexivity |].
  set (st := run_loop _ _ _ _ _ _).
  assert (Hst : numbered (chunks st)
                /\ next_index st = Z.of_nat (length (chunks st)))
    by (apply chunker_props.run_loop_numbered; reflexivity).
  destruct Hst as [Hn Hi].
  apply chunker_props.numbered_set_total.
  destruct (current_chunk_sentences st); [assumption |].
  apply chunker_props.numbered_snoc; [assumption | exact Hi].
Qed.

(** X5.  Within one document no two chunks share an identifier. *)
Theorem chunk_ids_distinct (self : LegalChunker) (doc : parser.LegalDocument) :
  List.NoDup (map chunk_id (chunk_document self doc)).
Proof.
  pose proof (chunk_document_numbered self doc) as Hnum. unfold numbered in Hnum.
  assert (Hid : List.Forall
                  (fun c => chunk_id c
                            = chunk_id (_make_chunk doc EmptyString (chunk_index c) 0))
                  (chunk_document self doc)).
  { apply chunk_document_forall; [reflexivity | intros t c H; exact H]. }
  set (cs := chunk_document self doc) in *.
  assert (Hidx : List.NoDup (map chunk_index cs)).
  { rewrite Hnum. apply Finite.Injective_map_NoDup; [| apply List.seq_NoDup].
    intros a b. apply Nat2Z.inj. }
  clearbody cs. clear Hnum.
  induction cs as [|c cs IH]; [constructor |].
  inversion Hid as [|? ? Hc Hcs]; subst.
  inversion Hidx as [|? ? Hnotin Hnd]; subst.
  simpl. constructor; [| now apply IH].
  intros Hin. apply Hnotin.
  apply List.in_map_iff in Hin. destruct Hin as (c' & Heq & Hc').
  apply List.in_map_iff. exists c'. split; [| exact Hc'].
  rewrite List.Forall_forall in Hcs. rewrite Hc, (Hcs c' Hc') in Heq.
  now apply make_chunk_id_inj in Heq.
Qed.

(** X6.  The identifier of a chunk depends on the act name, the section
    number and the chunk index only: chunks of two sections with the same act
    name and section number get the same identifier at the same index. *)
Theorem chunk_id_collides (self1 self2 : LegalChunker) (doc1 doc2 : parser.LegalDocument)
    (c1 c2 : Chunk) :
  parser.act_name doc1 = parser.act_name doc2 ->
  parser.section_number doc1 = parser.section_number doc2 ->
  In c1 (chunk_document self1 doc1) -> In c2 (chunk_document self2 doc2) ->
  chunk_index c1 = chunk_index c2 ->
  chunk_id c1 = chunk_id c2.
Proof.
  intros Ha Hs H1 H2 Hi.
  assert (Hid : forall self doc, List.Forall
                  (fun c => chunk_id c
                            = chunk_id (_make_chunk doc EmptyString (chunk_index c) 0))
                  (chunk_document self doc)).
  { intros self doc.
    apply chunk_document_forall; [reflexivity | intros t c H; exact H]. }
  pose proof (Hid self1 doc1) as Hid1. pose proof (Hid self2 doc2) as Hid2.
  rewrite List.Forall_forall in Hid1, Hid2.
  rewrite (Hid1 c1 H1), (Hid2 c2 H2).
  cbn [chunk_id _make_chunk]. now rewrite Ha, Hs, Hi.
Qed.

Lemma chunk_id_collides_witness :
  let doc1 := it_act_66 "Whoever hacks is punished." in
  let doc2 := it_act_66 "Whoever hacks again is punished again." in
  let c1 := _make_chunk doc1 (parser.content doc1) 0 1 in
  let c2 := _make_chunk doc2 (parser.content doc2) 0 1 in
  In c1 (chunk_document small_chunker doc1)
  /\ In c2 (chunk_document small_chunker doc2)
  /\ content c1 <> content c2
  /\ chunk_id c1 = chunk_id c2.
Proof.
  intros doc1 doc2 c1 c2.
  split; [left; reflexivity |]. split; [left; reflexivity |].
  split; [discriminate |].
  apply (chunk_id_collides small_chunker small_chunker doc1 doc2 c1 c2);
    solve [reflexivity | left; reflexivity].
Defined.

(** *** How many chunks *)

Lemma run_loop_snoc self doc hdr ht st (xs : list string) (x : string) :
  run_loop self doc hdr ht st (xs ++ [x])
  = loop_body self doc hdr ht (run_loop self doc hdr ht st xs) x.
Proof. unfold run_loop. now rewrite fold_left_app. Qed.

Lemma loop_body_pending self doc hdr ht st x :
  pending (loop_body self doc hdr ht st x) = 1%nat.
Proof.
  unfold pending, loop_body. cbn [current_chunk_sentences].
  match goal with |- match ?l ++ _ with _ => _ end = _ => now destruct l end.
Qed.

Lemma run_loop_pending self doc hdr ht st (xs : list string) :
  xs <> [] -> pending (run_loop self doc hdr ht st xs) = 1%nat.
Proof.
  intros Hxs. destruct (exists_last Hxs) as (ys & y & ->).
  rewrite run_loop_snoc. apply loop_body_pending.
Qed.



(** The length of the list [chunk_document] returns in the splitting branch. *)
Lemma split_branch_length self doc :
  (count_tokens self (parser.content doc) <=? max_tokens self) = false ->
  let st := run_loop self doc (_build_section_header doc)
              (count_tokens self (_build_section_header doc))
              {| chunks := []; current_chunk_sentences := [];
                 current_token_count := count_tokens self (_build_section_header doc);
                 next_index := 0 |}
              (_split_into_sentences (parser.content doc)) in
  length (chunk_document self doc) = (length (chunks st) + pending st)%nat.
Proof.
  intros Hbig st. unfold chunk_document. rewrite Hbig. fold st.
  rewrite length_map. unfold pending.
  destruct (current_chunk_sentences st); [lia |].
  rewrite length_app. reflexivity.
Qed.

(** X7.  [chunk_document] returns no chunk at all exactly when the content
    has more tokens than [max_tokens] and holds no sentence (it is blank):
    such a section is dropped without an error. *)
Theorem no_chunk_iff_blank_oversized (self : LegalChunker) (doc : parser.LegalDocument) :
  chunk_document self doc = []
  <-> max_tokens self < count_tokens self (parser.content doc)
      /\ _split_into_sentences (parser.content doc) = [].
Proof.
  destruct (count_tokens self (parser.content doc) <=? max_tokens self) eqn:Hfit.
  - split.
    + unfold chunk_document. rewrite Hfit. discriminate.
    + intros [Hlt _]. apply Z.leb_le in Hfit. lia.
  - pose proof (split_branch_length self doc Hfit) as Hlen. cbv zeta in Hlen.
    apply Z.leb_gt in Hfit. split.
    + intros Hnil. split; [exact Hfit |].
      rewrite Hnil in Hlen. simpl in Hlen.
      destruct (_split_into_sentences (parser.content doc)) as [|x xs] eqn:Hs;
        [reflexivity |].
      rewrite run_loop_pending in Hlen by discriminate. lia.
    + intros [_ Hs]. rewrite Hs in Hlen. simpl in Hlen.
      now destruct (chunk_document self doc).
Qed.


(** *** The token budget *)





End chunker_more.

(* ===================================================================== *)
(** ** Further properties of the embedder and of the cache *)
(* ===================================================================== *)
Module ingestion_more.
Import effects embedder run_ingestion cache_spec ingestion_spec.

Section with_services.
Context {W : Type} (svc : Services W).

Lemma length_slice (texts : list string) (i b : Z) :
  0 <= i -> 0 < b -> i < Z.of_nat (length texts) ->
  Z.of_nat (length (slice texts i (i + b))) = Z.min b (Z.of_nat (length texts) - i).
Proof.
  intros Hi Hb Hlt. unfold slice.
  rewrite List.length_firstn, List.length_skipn. lia.
Qed.

(** One batch: an answer in full, or a failed call. *)
Lemma embed_batch_outcome (self : LegalEmbedder) (batch : list string)
    (s : W * list event) :
  answers_in_full svc ->
  match (if use_local self then _embed_batch_local svc self batch
         else _embed_batch_openai svc self batch) s with
  | (inr vs, _) => length vs = length batch
  | (inl _, _) => ~ never_fails svc
  end.
Proof.
  intros [Hopenai Hlocal]. destruct s as [w tr].
  destruct (use_local self).
  - unfold _embed_batch_local, call. cbn [fst snd].
    destruct (local_encode svc _ w) as [[e | vs] w1] eqn:Hcall.
    + intros [_ Hnf]. destruct (Hnf (map (fun text => "passage: " +:+ text) batch) w)
        as [vs Hvs]. rewrite Hcall in Hvs. discriminate.
    + apply Hlocal in Hcall. now rewrite length_map in Hcall.
  - unfold _embed_batch_openai, retry_loop, raise_last, try_except, call, sleep,
      bind, raise. cbn [fst snd].
    destruct (embeddings_create svc (model self) batch w) as [[e | vs] w1] eqn:Hcall.
    + assert (Hfail : ~ never_fails svc).
      { intros [Hnf _]. destruct (Hnf (model self) batch w) as [vs Hvs].
        rewrite Hcall in Hvs. discriminate. }
      cbn [fst snd].
      destruct (embeddings_create svc (model self) batch w1) as [[e2 | v2] w2] eqn:Hcall2;
        [| now apply Hopenai in Hcall2].
      cbn [fst snd].
      destruct (embeddings_create svc (model self) batch w2) as [[e3 | v3] w3] eqn:Hcall3;
        [exact Hfail | now apply Hopenai in Hcall3].
    + now apply Hopenai in Hcall.
Qed.

Lemma embed_texts_loop_outcome (self : LegalEmbedder) (texts : list string) :
  answers_in_full svc -> 0 < batch_size self ->
  forall (fuel : nat) (i : Z) (acc : list vector) (s : W * list event),
    0 <= i -> Z.of_nat (length texts) <= i + Z.of_nat fuel ->
    Z.of_nat (length acc) = Z.min i (Z.of_nat (length texts)) ->
    match embed_texts_loop svc self texts fuel i acc s with
    | (inr vs, _) => length vs = length texts
    | (inl _, _) => ~ never_fails svc
    end.
Proof.
  intros Hfull Hbs. induction fuel as [|fuel IH]; intros i acc s Hi Hfuel Hacc.
  - cbn [embed_texts_loop].
    destruct (Z.ltb_spec i (Z.of_nat (length texts))); [lia |].
    unfold ret. lia.
  - rewrite embedder_props.embed_texts_loop_S.
    destruct (Z.ltb_spec i (Z.of_nat (length texts))) as [Hlt | Hge];
      [| unfold ret; lia].
    cbv zeta. unfold bind.
    pose proof (embed_batch_outcome self (slice texts i (i + batch_size self)) s Hfull)
      as Hbatch.
    destruct ((if use_local self
               then _embed_batch_local svc self (slice texts i (i + batch_size self))
               else _embed_batch_openai svc self (slice texts i (i + batch_size self))) s)
      as [[e | batch_embeddings] s1]; [exact Hbatch |].
    destruct ((if negb (use_local self)
                  && (i + batch_size self <? Z.of_nat (length texts))
               then sleep (FloatSeconds 0x1.999999999999ap-4%float) else ret tt) s1)
      as [[e | u] s2] eqn:Hsleep.
    { destruct (negb (use_local self)
                && (i + batch_size self <? Z.of_nat (length texts)));
        discriminate Hsleep. }
    apply IH; [lia | lia |].
    rewrite length_app, Nat2Z.inj_add, Hbatch, length_slice by lia. lia.
Qed.

Lemma embed_texts_outcome (self : LegalEmbedder) (texts : list string)
    (s : W * list event) :
  answers_in_full svc -> 0 < batch_size self ->
  match embed_texts svc self texts s with
  | (inr vs, _) => length vs = length texts
  | (inl _, _) => ~ never_fails svc
  end.
Proof.
  intros Hfull Hbs. unfold embed_texts.
  destruct (Z.eqb_spec (batch_size self) 0); [lia |].
  destruct (Z.ltb_spec (batch_size self) 0); [lia |].
  apply embed_texts_loop_outcome; (assumption || simpl; lia).
Qed.

(** X9.  When the embedding services answer every batch with one vector per
    text and the batch size is positive, [embed_texts] returns exactly one
    vector per text, whatever the number of batches and of retries; it fails
    only when a call to the service failed. *)
Theorem embed_texts_one_vector_per_text (self : LegalEmbedder) (texts : list string)
    (s : W * list event) :
  answers_in_full svc -> 0 < batch_size self ->
  match embed_texts svc self texts s with
  | (inr vs, _) => length vs = length texts
  | (inl _, _) => ~ never_fails svc
  end.
Proof.
  intros Hfull Hbs. unfold embed_texts.
  destruct (Z.eqb_spec (batch_size self) 0) as [Hzero | _]; [lia |].
  destruct (Z.ltb_spec (batch_size self) 0) as [Hneg | _]; [lia |].
  apply embed_texts_loop_outcome; [exact Hfull | exact Hbs | lia | lia |].
  simpl. lia.
Qed.

(** X10.  [embed_with_cache] run with a [LegalEmbedder] whose services
    answer in full: every text gets a vector (no entry is left at [None]),
    every text is in the cache afterwards, nothing that was cached is lost,
    and the call fails only when a call to the embedding service failed. *)
Theorem embed_with_cache_embedder (self : LegalEmbedder) (texts : list string)
    (cache : gmap string vector) (s : W * list event) :
  answers_in_full svc -> 0 < batch_size self ->
  match embed_with_cache texts (embed_texts svc self) cache s with
  | (inr (res, cache'), _) =>
      length res = length texts
      /\ Forall (fun r : option vector => is_Some r) res
      /\ (forall t, In t texts -> is_Some (cache' !! _text_hash t))
      /\ cache ⊆ cache'
  | (inl _, _) => ~ never_fails svc
  end.
Proof.
  intros Hfull Hbs. rewrite cache_props.embed_with_cache_spec.
  destruct (misses cache texts) as [|m ms] eqn:Hm.
  - assert (Hall : Forall (fun r : option vector => is_Some r)
                     (map (cache_lookup cache) texts)).
    { rewrite <- cache_props.merge_nil. apply cache_props.merge_is_Some.
      rewrite Hm. simpl. lia. }
    split; [apply length_map |]. split; [exact Hall |]. split; [| reflexivity].
    intros t Ht. rewrite List.Forall_forall in Hall.
    apply (Hall (cache_lookup cache t)). now apply List.in_map.
  - rewrite <- Hm.
    pose proof (embed_texts_outcome self (misses cache texts) s Hfull Hbs) as Hout.
    destruct (embed_texts svc self (misses cache texts) s) as [[e | ne] s1];
      [exact Hout |].
    split; [apply cache_props.length_merge |].
    split; [apply cache_props.merge_is_Some; lia |].
    split; [| apply cache_props.store_all_misses_preserves].
    intros t Ht. apply cache_props.store_all_misses_covers; [lia | exact Ht].
Qed.

(** *** The batches *)

Lemma embedding_inputs_app (a b : list event) :
  embedding_inputs (a ++ b) = embedding_inputs a ++ embedding_inputs b.
Proof. apply omap_app. Qed.

Lemma model_input_local (self : LegalEmbedder) (batch : list string) :
  use_local self = true ->
  map (model_input self) batch = map (fun text => "passage: " +:+ text) batch.
Proof. intros H. apply List.map_ext. intros t. unfold model_input. now rewrite H. Qed.

Lemma model_input_openai (self : LegalEmbedder) (batch : list string) :
  use_local self = false -> map (model_input self) batch = batch.
Proof.
  intros H. rewrite <- (List.map_id batch) at 2.
  apply List.map_ext. intros t. unfold model_input. now rewrite H.
Qed.

(** One batch that is answered: sent one to three times, once in local
    mode. *)
Lemma embed_batch_sends (self : LegalEmbedder) (batch : list string)
    (w : W) (tr : list event) (vs : list vector) (w' : W) (tr' : list event) :
  (if use_local self then _embed_batch_local svc self batch
   else _embed_batch_openai svc self batch) (w, tr) = (inr vs, (w', tr')) ->
  exists (n : nat) (new : list event),
    (1 <= n <= 3)%nat /\ (use_local self = true -> n = 1%nat)
    /\ tr' = tr ++ new
    /\ embedding_inputs new = repeat (map (model_input self) batch) n.
Proof.
  destruct (use_local self) eqn:Hlocal.
  - unfold _embed_batch_local, call. cbn [fst snd].
    destruct (local_encode svc _ w) as [[e | v] w1]; intros [= <- <- <-].
    exists 1%nat, [LocalEncode (map (fun text => "passage: " +:+ text) batch)].
    rewrite (model_input_local self batch Hlocal).
    repeat split; lia.
  - unfold _embed_batch_openai, retry_loop, raise_last, try_except, call, sleep,
      bind, raise. cbn [fst snd].
    rewrite (model_input_openai self batch Hlocal).
    destruct (embeddings_create svc (model self) batch w) as [[e1 | v1] w1].
    2:{ intros [= <- <- <-]. exists 1%nat, [EmbeddingsCreate (model self) batch].
        repeat split; (lia || discriminate). }
    cbn [fst snd].
    destruct (embeddings_create svc (model self) batch w1) as [[e2 | v2] w2].
    2:{ intros [= <- <- <-].
        exists 2%nat, [EmbeddingsCreate (model self) batch; Sleep (IntSeconds (4 * 2 ^ 0));
                       EmbeddingsCreate (model self) batch].
        rewrite <- !app_assoc. repeat split; (lia || discriminate). }
    cbn [fst snd].
    destruct (embeddings_create svc (model self) batch w2) as [[e3 | v3] w3];
      [discriminate |].
    intros [= <- <- <-].
    exists 3%nat, [EmbeddingsCreate (model self) batch; Sleep (IntSeconds (4 * 2 ^ 0));
                   EmbeddingsCreate (model self) batch; Sleep (IntSeconds (4 * 2 ^ 1));
                   EmbeddingsCreate (model self) batch].
    rewrite <- !app_assoc. repeat split; (lia || discriminate).
Qed.

Lemma embed_texts_loop_sends (self : LegalEmbedder) (texts : list string) :
  0 < batch_size self ->
  forall (fuel : nat) (i : Z) (acc : list vector) (w : W) (tr : list event)
         (vs : list vector) (w' : W) (tr' : list event),
    0 <= i -> Z.of_nat (length texts) <= i + Z.of_nat fuel ->
    embed_texts_loop svc self texts fuel i acc (w, tr) = (inr vs, (w', tr')) ->
    exists (new : list event) (bs : list (list string)),
      tr' = tr ++ new
      /\ sends bs (embedding_inputs new)
      /\ (use_local self = true -> embedding_inputs new = bs)
      /\ concat bs = map (model_input self) (skipn (Z.to_nat i) texts)
      /\ List.Forall (fun b => (0 < length b <= Z.to_nat (batch_size self))%nat) bs.
Proof.
  intros Hbs. induction fuel as [|fuel IH];
    intros i acc w tr vs w' tr' Hi Hfuel Hrun.
  - cbn [embed_texts_loop] in Hrun.
    destruct (Z.ltb_spec i (Z.of_nat (length texts))); [lia |].
    injection Hrun as <- <- <-. exists [], [].
    rewrite app_nil_r, List.skipn_all2 by lia.
    repeat split; constructor.
  - rewrite embedder_props.embed_texts_loop_S in Hrun.
    destruct (Z.ltb_spec i (Z.of_nat (length texts))) as [Hlt | Hge].
    2:{ injection Hrun as <- <- <-. exists [], [].
        rewrite app_nil_r, List.skipn_all2 by lia.
        repeat split; constructor. }
    cbv zeta in Hrun. unfold bind in Hrun.
    set (batch := slice texts i (i + batch_size self)) in *.
    destruct ((if use_local self then _embed_batch_local svc self batch
               else _embed_batch_openai svc self batch) (w, tr))
      as [[e | batch_embeddings] [w1 tr1]] eqn:Hbatch; [discriminate |].
    apply embed_batch_sends in Hbatch.
    destruct Hbatch as (n & new1 & Hn & Hn1 & -> & Hin1).
    assert (Hsleep : exists pause,
               (if negb (use_local self)
                   && (i + batch_size self <? Z.of_nat (length texts))
                then sleep (FloatSeconds 0x1.999999999999ap-4%float) else ret tt)
                 (w1, tr ++ new1)
               = (inr tt, (w1, (tr ++ new1) ++ pause))
               /\ embedding_inputs pause = []).
    { destruct (negb (use_local self)
                && (i + batch_size self <? Z.of_nat (length texts))).
      - eexists. split; reflexivity.
      - exists []. rewrite app_nil_r. split; reflexivity. }
    destruct Hsleep as (pause & Hsleep & Hpause). rewrite Hsleep in Hrun.
    apply IH in Hrun; [| lia | lia].
    destruct Hrun as (new2 & bs & -> & Hsends & Hlocal & Hconcat & Hlen).
    exists (new1 ++ pause ++ new2), (map (model_input self) batch :: bs).
    rewrite !embedding_inputs_app, Hin1, Hpause. cbn [app].
    assert (Hbatch : batch = firstn (Z.to_nat (batch_size self))
                               (skipn (Z.to_nat i) texts)).
    { unfold batch, slice. f_equal. lia. }
    split; [now rewrite <- !app_assoc |].
    split; [now constructor |].
    split; [intros Hl; rewrite (Hn1 Hl), (Hlocal Hl); reflexivity |].
    split.
    + cbn [concat]. rewrite Hconcat, <- map_app. f_equal.
      rewrite Hbatch, Z2Nat.inj_add, Nat.add_comm, <- List.skipn_skipn by lia.
      apply List.firstn_skipn.
    + constructor; [| exact Hlen].
      rewrite length_map, Hbatch, List.length_firstn, List.length_skipn. lia.
Qed.

(** X11.  A successful [embed_texts] with a positive batch size hands every
    text to the model, in order, in batches that are not empty and hold at
    most [batch_size] texts; a batch is sent one to three times in a row
    (once in local mode, where each text carries the passage prefix). *)
Theorem embed_texts_batches (self : LegalEmbedder) (texts : list string)
    (w : W) (tr : list event) (vs : list vector) (w' : W) (tr' : list event) :
  0 < batch_size self ->
  embed_texts svc self texts (w, tr) = (inr vs, (w', tr')) ->
  exists (new : list event) (bs : list (list string)),
    tr' = tr ++ new
    /\ sends bs (embedding_inputs new)
    /\ (use_local self = true -> embedding_inputs new = bs)
    /\ concat bs = map (model_input self) texts
    /\ List.Forall (fun b => (0 < length b <= Z.to_nat (batch_size self))%nat) bs.
Proof.
  intros Hbs. unfold embed_texts.
  destruct (Z.eqb_spec (batch_size self) 0); [lia |].
  destruct (Z.ltb_spec (batch_size self) 0); [lia |].
  intros Hrun. apply embed_texts_loop_sends in Hrun; [exact Hrun | lia | lia | lia].
Qed.

End with_services.

(** *** Edges *)

Lemma merge_short (cache : gmap string vector) (texts : list string) :
  forall ne, (length ne < length (misses cache texts))%nat ->
    In None (merge cache texts ne).
Proof.
  induction texts as [|t rest IH]; intros ne Hlen;
    [cbn [misses length] in Hlen; lia |].
  cbn [misses merge] in *. revert Hlen.
  destruct (cache_lookup cache t) as [v|]; intros Hlen.
  - right. now apply IH.
  - destruct ne as [|e more]; [now left |].
    right. apply IH. cbn [length] in Hlen. lia.
Qed.

(** X18.  When the embedder answers with fewer vectors than it was given
    uncached texts, [embed_with_cache] does not fail: it returns a list as
    long as the input in which the texts left without a vector are [None]. *)
Theorem short_answer_leaves_none {W : Type} (texts : list string)
    (embed_texts : list string -> M W (list vector))
    (cache : gmap string vector) (s s' : W * list event) (ne : list vector) :
  embed_texts (misses cache texts) s = (inr ne, s') ->
  (length ne < length (misses cache texts))%nat ->
  exists res cache',
    embed_with_cache texts embed_texts cache s = (inr (res, cache'), s')
    /\ length res = length texts
    /\ In None res.
Proof.
  intros Hrun Hlen. rewrite cache_props.embed_with_cache_spec.
  destruct (misses cache texts) as [|m ms] eqn:Hm; [cbn [length] in Hlen; lia |].
  rewrite <- Hm in *. rewrite Hrun.
  eexists _, _. split; [reflexivity |].
  split; [apply cache_props.length_merge | now apply merge_short].
Qed.

Lemma short_answer_leaves_none_witness :
  exists res cache',
    embed_with_cache ["Omitted."; "Repealed."; "Whoever hacks is punished."]
      (embed_texts scripted.services scripted.openai_embedder) ∅ (two_vectors, [])
    = (inr (res, cache'),
       (scripted.silent,
        [EmbeddingsCreate "text-embedding-3-small"
           ["Omitted."; "Repealed."; "Whoever hacks is punished."]]))
    /\ length res = 3%nat
    /\ In None res.
Proof.
  apply (short_answer_leaves_none
           ["Omitted."; "Repealed."; "Whoever hacks is punished."]
           (embed_texts scripted.services scripted.openai_embedder) ∅
           (two_vectors, []) _ [[0.25%float]; [0.5%float]]);
    [reflexivity | vm_compute; lia].
Defined.

(** X19.  With a negative batch size [embed_texts] calls no model and
    returns no vector, whatever the texts; [embed_with_cache] then succeeds
    with [None] for every text that is not cached, and stores nothing. *)
Theorem negative_batch_size_embeds_nothing {W : Type} (svc : Services W)
    (self : LegalEmbedder) (texts : list string) (cache : gmap string vector)
    (s : W * list event) :
  batch_size self < 0 ->
  embed_texts svc self texts s = (inr [], s)
  /\ embed_with_cache texts (embed_texts svc self) cache s
     = (inr (map (cache_lookup cache) texts, cache), s).
Proof.
  intros Hneg.
  assert (Hembed : forall l, embed_texts svc self l s = (inr [], s)).
  { intros l. unfold embed_texts.
    destruct (Z.eqb_spec (batch_size self) 0); [lia |].
    destruct (Z.ltb_spec (batch_size self) 0); [reflexivity | lia]. }
  split; [apply Hembed |].
  rewrite cache_props.embed_with_cache_spec.
  destruct (misses cache texts) as [|m ms]; [reflexivity |].
  rewrite Hembed, cache_props.merge_nil, List.combine_nil. reflexivity.
Qed.

Lemma negative_batch_size_embeds_nothing_witness :
  batch_size backward_embedder < 0
  /\ embed_texts constant_services backward_embedder ["Omitted."; "He pays a fine."]
       (tt, [])
     = (inr [], (tt, []))
  /\ embed_with_cache ["Omitted."; "He pays a fine."]
       (embed_texts constant_services backward_embedder) two_repeals (tt, [])
     = (inr (map (cache_lookup two_repeals) ["Omitted."; "He pays a fine."],
             two_repeals),
        (tt, [])).
Proof.
  split; [reflexivity |].
  apply (negative_batch_size_embeds_nothing constant_services backward_embedder
           ["Omitted."; "He pays a fine."] two_repeals (tt, [])).
  reflexivity.
Defined.

Lemma constant_services_in_full : answers_in_full constant_services.
Proof.
  split.
  - intros m input w vs w' [= <- _]. apply length_map.
  - intros input w vs w' [= <- _]. apply length_map.
Qed.

Lemma constant_services_never_fail : never_fails constant_services.
Proof. split; intros; eexists; reflexivity. Qed.

Lemma embed_texts_one_vector_per_text_witness :
  answers_in_full constant_services
  /\ 0 < batch_size (pair_embedder false)
  /\ match embed_texts constant_services (pair_embedder false) ["a"; "b"; "c"] (tt, [])
     with
     | (inr vs, _) => length vs = length ["a"; "b"; "c"]
     | (inl _, _) => ~ never_fails constant_services
     end.
Proof.
  split; [exact constant_services_in_full |]. split; [reflexivity |].
  apply (embed_texts_one_vector_per_text constant_services (pair_embedder false)
           ["a"; "b"; "c"] (tt, []));
    [exact constant_services_in_full | reflexivity].
Defined.

Lemma embed_with_cache_embedder_witness :
  answers_in_full constant_services
  /\ 0 < batch_size (pair_embedder true)
  /\ match embed_with_cache ["Omitted."; "Repealed."; "Whoever hacks is punished."]
             (embed_texts constant_services (pair_embedder true)) two_repeals (tt, [])
     with
     | (inr (res, cache'), _) =>
         length res = 3%nat
         /\ Forall (fun r : option vector => is_Some r) res
         /\ (forall t, In t ["Omitted."; "Repealed."; "Whoever hacks is punished."] ->
                is_Some (cache' !! _text_hash t))
         /\ two_repeals ⊆ cache'
     | (inl _, _) => ~ never_fails constant_services
     end.
Proof.
  split; [exact constant_services_in_full |]. split; [reflexivity |].
  apply (embed_with_cache_embedder constant_services (pair_embedder true)
           ["Omitted."; "Repealed."; "Whoever hacks is punished."] two_repeals (tt, []));
    [exact constant_services_in_full | reflexivity].
Defined.

Lemma embed_texts_batches_witness :
  0 < batch_size (pair_embedder false)
  /\ embed_texts constant_services (pair_embedder false) ["a"; "b"; "c"] (tt, [])
     = (inr [[1%float]; [1%float]; [1%float]],
        (tt, [EmbeddingsCreate "text-embedding-3-small" ["a"; "b"];
              Sleep (FloatSeconds 0x1.999999999999ap-4%float);
              EmbeddingsCreate "text-embedding-3-small" ["c"]]))
  /\ exists (new : list event) (bs : list (list string)),
       [EmbeddingsCreate "text-embedding-3-small" ["a"; "b"];
        Sleep (FloatSeconds 0x1.999999999999ap-4%float);
        EmbeddingsCreate "text-embedding-3-small" ["c"]] = [] ++ new
       /\ sends bs (embedding_inputs new)
       /\ (use_local (pair_embedder false) = true -> embedding_inputs new = bs)
       /\ concat bs = map (model_input (pair_embedder false)) ["a"; "b"; "c"]
       /\ List.Forall
            (fun b => (0 < length b <= Z.to_nat (batch_size (pair_embedder false)))%nat)
            bs.
Proof.
  split; [reflexivity |]. split; [reflexivity |].
  apply (embed_texts_batches constant_services (pair_embedder false) ["a"; "b"; "c"]
           tt [] [[1%float]; [1%float]; [1%float]] tt); reflexivity.
Defined.

End ingestion_more.

(* ===================================================================== *)
(** ** Further properties of the query path *)
(* ===================================================================== *)
Module query_more.
Import effects vakilbot vakilbot_spec query_spec.

Section stages.
Context {W : Type} (svc : Services W).

(** *** What a query sends *)

Lemma hybrid_search_trace (self : searcher.LegalSearcher) (query : string) (k : Z)
    (af df : option string) (tf : option (list string)) (yr : option (Z * Z))
    (w : W) (tr : list event) :
  exists new,
    snd (snd (searcher.hybrid_search svc self query k af df tf yr (w, tr))) = tr ++ new
    /\ List.Forall (search_event self query k) new.
Proof.
  unfold searcher.hybrid_search, embedder.embed_query, bind, call, ret, raise.
  destruct (embedder.use_local (searcher.the_embedder self)) eqn:Hlocal; cbn [fst snd].
  - destruct (local_encode svc _ w) as [[err | [|v vs]] w1]; cbn [fst snd].
    + eexists. split; [reflexivity |]. repeat constructor. exact Hlocal.
    + eexists. split; [reflexivity |]. repeat constructor. exact Hlocal.
    + destruct (es_search svc _ _ w1) as [[err | hits] w2]; cbn [fst snd];
        (eexists; split; [rewrite <- app_assoc; reflexivity |]);
        repeat constructor; exact Hlocal.
  - destruct (embeddings_create svc _ _ w) as [[err | [|v vs]] w1]; cbn [fst snd].
    + eexists. split; [reflexivity |]. repeat constructor. exact Hlocal.
    + eexists. split; [reflexivity |]. repeat constructor. exact Hlocal.
    + destruct (es_search svc _ _ w1) as [[err | hits] w2]; cbn [fst snd];
        (eexists; split; [rewrite <- app_assoc; reflexivity |]);
        repeat constructor; exact Hlocal.
Qed.

Lemma retrieve_trace (self : VakilBot) (query : string)
    (act_filter_arg : option string) (rq : string) (w : W) (tr : list event) :
  exists new,
    snd (snd (retrieve svc self query act_filter_arg rq (w, tr))) = tr ++ new
    /\ List.Forall (search_event (the_searcher self) rq (k self)) new.
Proof.
  unfold retrieve, filtered_search, unfiltered_search, bind.
  destruct (hybrid_search_trace (the_searcher self) rq (k self)
              (effective_act_filter query act_filter_arg) None
              (tag_filter (_detect_intent query)) None w tr) as (n1 & H1 & F1).
  destruct (searcher.hybrid_search svc (the_searcher self) rq (k self)
              (effective_act_filter query act_filter_arg) None
              (tag_filter (_detect_intent query)) None (w, tr))
    as [[err | results] [w1 tr1]]; cbn [fst snd] in *.
  - exists n1. split; assumption.
  - destruct (match results with [] => true | _ => false end
              && py.truthy_opt (effective_act_filter query act_filter_arg)).
    + destruct (hybrid_search_trace (the_searcher self) rq (k self)
                  None None None None w1 tr1) as (n2 & H2 & F2).
      exists (n1 ++ n2). split; [rewrite H2, H1; now rewrite app_assoc |].
      apply List.Forall_app. split; assumption.
    + exists n1. split; assumption.
Qed.

(** The trace of one run of [answer]: the rewrite request, the requests of
    the retrieval, the generation request. *)
Lemma answer_trace (self : VakilBot) (query : string)
    (act_filter_arg : option string) (stream : bool) (w : W) (tr : list event) :
  let run := answer svc self query act_filter_arg stream (w, tr) in
  exists retrieval generation,
    snd (snd run)
    = tr ++ ChatCreate (rewrite_request query) :: retrieval ++ generation
    /\ match fst (_rewrite_query svc self query (w, tr)) with
       | inr rq => List.Forall (search_event (the_searcher self) rq (k self)) retrieval
       | inl _ => retrieval = [] /\ generation = []
       end
    /\ (generation = []
        \/ stream = false
           /\ exists req, generation = [ChatCreate req]
                          /\ generation_of self query false req)
    /\ (forall g, fst run = inr (Streaming g) ->
          stream = true /\ generation = []
          /\ exists results,
               g = _stream_response svc self
                     (messages_for query (_build_context results)) results).
Proof.
  cbv zeta. rewrite vakilbot_props.answer_stages. unfold bind.
  assert (Hrw : exists r w1,
             _rewrite_query svc self query (w, tr)
             = (r, (w1, tr ++ [ChatCreate (rewrite_request query)]))).
  { unfold _rewrite_query, bind, call, ret. cbn [fst snd].
    destruct (chat_create svc _ w) as [[err | text] w1]; eauto. }
  destruct Hrw as (r & w1 & Hrw). rewrite Hrw. cbn [fst].
  destruct r as [err | rq].
  { exists [], []. cbn [fst snd app].
    split; [reflexivity |]. split; [now split |]. split; [now left |].
    discriminate. }
  destruct (retrieve_trace self query act_filter_arg rq w1
              (tr ++ [ChatCreate (rewrite_request query)])) as (n1 & H1 & F1).
  destruct (retrieve svc self query act_filter_arg rq
              (w1, tr ++ [ChatCreate (rewrite_request query)]))
    as [[err | results] [w2 tr2]]; cbn [fst snd] in *.
  { exists n1, []. rewrite app_nil_r, H1, <- app_assoc.
    split; [reflexivity |]. split; [exact F1 |]. split; [now left |].
    discriminate. }
  unfold generate, _generate_response, bind, call, ret. destruct stream.
  - exists n1, []. cbn [fst snd]. rewrite app_nil_r, H1, <- app_assoc.
    split; [reflexivity |]. split; [exact F1 |]. split; [now left |].
    intros g [= <-]. split; [reflexivity |]. split; [reflexivity |].
    now exists results.
  - cbn [fst snd].
    destruct (chat_create svc _ w2) as [[err | text] w3]; cbn [fst snd];
      (eexists n1, [ChatCreate _]; rewrite H1, <- !app_assoc;
       split; [reflexivity |]; split; [exact F1 |];
       split; [right; split; [reflexivity |]; eexists; split; [reflexivity |];
               now exists results
              | discriminate]).
Qed.

(** X12.  What [answer] sends, request by request.  The first request is
    the rewrite of the user's query.  When the rewrite fails nothing else is
    sent.  Otherwise come the requests of the retrieval, each of them the
    embedding of the rewritten query or a search of the searcher's index for
    the rewritten query with [size = k], [knn.k = 2k],
    [num_candidates = 10k], a rank window of [3k] and rank constant 60, and
    then at most one request, the generation request of a complete answer.
    So the only text embedded or searched is the rewritten query. *)
Theorem answer_retrieves_rewritten_query (self : VakilBot) (query : string)
    (act_filter_arg : option string) (stream : bool) (w : W) (tr : list event) :
  exists retrieval generation,
    snd (snd (answer svc self query act_filter_arg stream (w, tr)))
    = tr ++ ChatCreate (rewrite_request query) :: retrieval ++ generation
    /\ match fst (_rewrite_query svc self query (w, tr)) with
       | inr rq => List.Forall (search_event (the_searcher self) rq (k self)) retrieval
       | inl _ => retrieval = [] /\ generation = []
       end
    /\ (generation = []
        \/ stream = false
           /\ exists req, generation = [ChatCreate req]
                          /\ generation_of self query false req)
    /\ chats retrieval = []
    /\ embedding_texts generation = []
    /\ searches generation = [].
Proof.
  destruct (answer_trace self query act_filter_arg stream w tr)
    as (retrieval & generation & Htr & Hret & Hgen & _).
  exists retrieval, generation. split; [exact Htr |]. split; [exact Hret |].
  split; [exact Hgen |]. split.
  - destruct (fst (_rewrite_query svc self query (w, tr))) as [err | rq];
      [now destruct Hret as [-> _] |].
    clear Htr. induction Hret as [|ev evs Hev _ IH]; [reflexivity |].
    destruct ev; try contradiction; exact IH.
  - destruct Hgen as [-> | (_ & req & -> & _)]; split; reflexivity.
Qed.

(** X13.  With [stream=True], [answer] sends exactly one chat request, the
    rewrite of the query: generation is left to the generator it returns,
    which is [_stream_response] on the prompt built from the retrieved
    results.  With [stream=False] it sends the rewrite and at most one
    generation request, not streamed, and never returns a generator. *)
Theorem answer_chat_requests (self : VakilBot) (query : string)
    (act_filter_arg : option string) (stream : bool) (w : W) (tr : list event) :
  let run := answer svc self query act_filter_arg stream (w, tr) in
  exists new,
    snd (snd run) = tr ++ new
    /\ (chats new = [rewrite_request query]
        \/ stream = false
           /\ exists req, chats new = [rewrite_request query; req]
                          /\ generation_of self query false req)
    /\ (stream = true -> chats new = [rewrite_request query])
    /\ (forall g, fst run = inr (Streaming g) ->
          stream = true
          /\ exists results,
               g = _stream_response svc self
                     (messages_for query (_build_context results)) results).
Proof.
  cbv zeta.
  destruct (answer_trace self query act_filter_arg stream w tr)
    as (retrieval & generation & Htr & Hret & Hgen & Hstream).
  assert (Hchats : chats retrieval = []).
  { destruct (fst (_rewrite_query svc self query (w, tr))) as [err | rq];
      [now destruct Hret as [-> _] |].
    clear Htr. induction Hret as [|ev evs Hev _ IH]; [reflexivity |].
    destruct ev; try contradiction; exact IH. }
  assert (Hnew : chats (ChatCreate (rewrite_request query) :: retrieval ++ generation)
                 = rewrite_request query :: chats generation).
  { change (ChatCreate (rewrite_request query) :: retrieval ++ generation)
      with ([ChatCreate (rewrite_request query)] ++ retrieval ++ generation).
    unfold chats in *. rewrite !omap_app, Hchats. reflexivity. }
  exists (ChatCreate (rewrite_request query) :: retrieval ++ generation).
  split; [exact Htr |]. rewrite Hnew. split; [| split].
  - destruct Hgen as [-> | (Hs & req & -> & Hreq)]; [now left |].
    right. split; [exact Hs |]. exists req. split; [reflexivity | exact Hreq].
  - intros ->. destruct Hgen as [-> | (Hs & _)]; [reflexivity | discriminate].
  - intros g Hg. destruct (Hstream g Hg) as (Hs & _ & Hres). split; assumption.
Qed.

(** *** Streamed and complete answers *)

Lemma join_empty_app (a b : list string) :
  py.join EmptyString (a ++ b) = py.join EmptyString a +:+ py.join EmptyString b.
Proof.
  induction a as [|x a IH]; [reflexivity |].
  change ((x :: a) ++ b) with (x :: (a ++ b)).
  now rewrite !chunker_more.join_empty_cons, IH, chunker_props.append_assoc.
Qed.

Lemma omap_cons_eq {A B : Type} (f : A -> option B) (x : A) (l : list A) :
  omap f (x :: l) = match f x with Some y => y :: omap f l | None => omap f l end.
Proof. reflexivity. Qed.

Lemma join_truthy_deltas (deltas : list (option string)) :
  py.join EmptyString
    (omap (fun delta : option string => if py.truthy_opt delta then delta else None)
       deltas)
  = streamed_text deltas.
Proof.
  unfold streamed_text. induction deltas as [|d ds IH]; [reflexivity |].
  rewrite !omap_cons_eq.
  destruct d as [[|c t]|]; cbn [py.truthy_opt py.truthy].
  - rewrite chunker_more.join_empty_cons. exact IH.
  - rewrite !chunker_more.join_empty_cons. now rewrite IH.
  - exact IH.
Qed.

(** X14.  The streamed and the complete answer agree: when the model streams
    the text it would return in one piece, the items [_stream_response]
    yields, joined, are the string [_generate_response] returns (the text
    followed by the same source list). *)
Theorem stream_and_complete_agree (self : VakilBot) (messages : list message)
    (results : list searcher.result) (s s' : W * list event)
    (deltas : list (option string)) (text : string) (w1 w2 : W) :
  chat_stream svc (generation_request self messages true) (fst s) = (inr deltas, w1) ->
  chat_create svc (generation_request self messages false) (fst s') = (inr text, w2) ->
  text = streamed_text deltas ->
  exists items,
    fst (_stream_response svc self messages results s) = inr items
    /\ fst (_generate_response svc self messages results s')
       = inr (py.join EmptyString items).
Proof.
  intros Hstream Hcreate ->.
  unfold _stream_response, _generate_response, bind, call, ret.
  rewrite Hstream, Hcreate. cbn [fst snd].
  eexists. split; [reflexivity |].
  rewrite !join_empty_app, join_truthy_deltas. reflexivity.
Qed.

(** *** From the question to the answer *)

(** X21.  A retrieval that fails is not retried: when the first search of
    [answer] (the embedding of the rewritten query or the filtered search)
    raises, [answer] raises the same error at once, without the unfiltered
    fallback and without generation. *)
Theorem failed_search_is_not_retried (self : VakilBot) (query : string)
    (act_filter_arg : option string) (stream : bool) (w : W) (tr : list event)
    (rq : string) (s1 s2 : W * list event) (e : exn) :
  _rewrite_query svc self query (w, tr) = (inr rq, s1) ->
  filtered_search svc self query act_filter_arg rq s1 = (inl e, s2) ->
  retrieve svc self query act_filter_arg rq s1 = (inl e, s2)
  /\ answer svc self query act_filter_arg stream (w, tr) = (inl e, s2).
Proof.
  intros Hrw Hfirst.
  assert (Hret : retrieve svc self query act_filter_arg rq s1 = (inl e, s2)).
  { unfold retrieve, bind. now rewrite Hfirst. }
  split; [exact Hret |].
  rewrite vakilbot_props.answer_stages. unfold bind at 1. rewrite Hrw.
  unfold bind at 1. now rewrite Hret.
Qed.

Lemma length_source_lines (results : list searcher.result) :
  length (source_lines results) = Nat.min 3 (length results).
Proof.
  unfold source_lines, run_ingestion.enumerate.
  rewrite length_map, length_combine, length_seq, Nat.min_id.
  apply List.length_firstn.
Qed.

(** X22.  The complete answer, end to end: when the rewrite gives [rq],
    retrieval (fallback included) gives [results] and the model answers
    [text] to the prompt built from the user's query and the context of
    [results], [answer] with [stream=False] returns [text] followed by the
    source header and one line for each of the first three results at most;
    the generation request is the last thing it sends. *)
Theorem complete_answer (self : VakilBot) (query : string)
    (act_filter_arg : option string) (w : W) (tr : list event)
    (rq : string) (s1 s2 : W * list event) (results : list searcher.result)
    (text : string) (w3 : W) :
  let request :=
    generation_request self (messages_for query (_build_context results)) false in
  _rewrite_query svc self query (w, tr) = (inr rq, s1) ->
  retrieve svc self query act_filter_arg rq s1 = (inr results, s2) ->
  chat_create svc request (fst s2) = (inr text, w3) ->
  answer svc self query act_filter_arg false (w, tr)
  = (inr (Complete (text +:+ sources_header
                      +:+ py.join EmptyString (source_lines results))),
     (w3, snd s2 ++ [ChatCreate request]))
  /\ length (source_lines results) = Nat.min 3 (length results).
Proof.
  intros request Hrw Hret Hgen. split; [| apply length_source_lines].
  rewrite vakilbot_props.answer_stages. unfold bind at 1. rewrite Hrw.
  unfold bind at 1. rewrite Hret.
  unfold generate, _generate_response, bind, call, ret. cbn [fst snd].
  fold request. now rewrite Hgen.
Qed.

End stages.

Lemma failed_search_is_not_retried_witness :
  py.truthy_opt (effective_act_filter hacking_query None) = true
  /\ retrieve scripted.services bot hacking_query None hacking_rewritten refusing_s1
     = (inl scripted.rate_limit_error, refusing_s2)
  /\ answer scripted.services bot hacking_query None false (refusing_world, [])
     = (inl scripted.rate_limit_error, refusing_s2).
Proof.
  split; [reflexivity |].
  apply (failed_search_is_not_retried scripted.services bot hacking_query None false
           refusing_world [] hacking_rewritten refusing_s1 refusing_s2);
    reflexivity.
Defined.

Lemma complete_answer_witness :
  let results := searcher._format_results [hit_66] in
  let request :=
    generation_request bot (messages_for hacking_query (_build_context results)) false in
  answer scripted.services bot hacking_query None false (hacking_world, [])
  = (inr (Complete ("Section 66 provides for imprisonment up to three years."
                      +:+ sources_header
                      +:+ py.join EmptyString (source_lines results))),
     (scripted.silent, snd hacking_s3 ++ [ChatCreate request]))
  /\ length (source_lines results) = Nat.min 3 (length results).
Proof.
  intros results request.
  apply (complete_answer scripted.services bot hacking_query None hacking_world []
           hacking_rewritten hacking_s1 hacking_s3 results
           "Section 66 provides for imprisonment up to three years."
           scripted.silent);
    reflexivity.
Defined.

Lemma stream_and_complete_agree_witness :
  let results := searcher._format_results [hit_66] in
  let messages := messages_for hacking_query (_build_context results) in
  exists items,
    fst (_stream_response scripted.services bot messages results (section_66_world, []))
    = inr items
    /\ fst (_generate_response scripted.services bot messages results
              (section_66_world, []))
       = inr (py.join EmptyString items).
Proof.
  intros results messages.
  apply (stream_and_complete_agree scripted.services bot messages results
           (section_66_world, []) (section_66_world, [])
           [Some "Section 66 "; None; Some EmptyString; Some "applies."]
           "Section 66 applies."
           {| scripted.embed_script := []; scripted.encode_script := [];
              scripted.chat_script := [inr "Section 66 applies."];
              scripted.stream_script := []; scripted.search_script := [] |}
           {| scripted.embed_script := []; scripted.encode_script := [];
              scripted.chat_script := [];
              scripted.stream_script :=
                [inr [Some "Section 66 "; None; Some EmptyString; Some "applies."]];
              scripted.search_script := [] |});
    reflexivity.
Defined.

(** *** Intent detection *)

Lemma prefix_bnss (s : string) :
  String.prefix "bnss" s = true -> String.prefix "bns" s = true.
Proof.
  destruct s as [|c1 [|c2 [|c3 s]]]; cbn [String.prefix];
    repeat match goal with |- context [ascii_dec ?a ?b] => destruct (ascii_dec a b) end;
    try congruence.
  now destruct s.
Qed.

Lemma contains_bnss (s : string) :
  py.contains "bnss" s = true -> py.contains "bns" s = true.
Proof.
  induction s as [|c s IH].
  - cbn [py.contains]. rewrite !orb_false_r. apply prefix_bnss.
  - cbn [py.contains]. rewrite !orb_true_iff.
    intros [H | H]; [left; now apply prefix_bnss | right; now apply IH].
Qed.

(** X15.  Intent detection never selects the Bharatiya Nagrik Suraksha
    Sanhita: its hint, bnss, contains the hint bns of the Bharatiya Nyay
    Sanhita, which is tried first, so a query that names the BNSS is
    filtered to the BNS. *)
Theorem bnss_hint_is_shadowed (query : string) :
  act_filter (_detect_intent query) <> Some bnss
  /\ (py.contains "bnss" (py.lower query) = true ->
      act_filter (_detect_intent query) = Some bns).
Proof.
  unfold _detect_intent. cbn [act_filter]. unfold act_hints. cbn [detect_act].
  set (ql := py.lower query).
  destruct (py.contains "bns" ql) eqn:Hbns; [split; [discriminate | reflexivity] |].
  destruct (py.contains "bnss" ql) eqn:Hbnss;
    [apply contains_bnss in Hbnss; congruence |].
  split; [| discriminate].
  repeat match goal with |- context [if ?b then _ else _] => destruct b end;
    discriminate.
Qed.

(** *** The filters of a search *)

(** X16.  [_build_filters] builds no filter clause exactly when every
    argument is falsy: an empty act or document-type string and an empty tag
    list count as no filter. *)
Theorem build_filters_empty_iff (af df : option string) (tf : option (list string))
    (yr : option (Z * Z)) :
  searcher._build_filters af df tf yr = []
  <-> py.truthy_opt af = false /\ py.truthy_opt df = false
      /\ searcher.truthy_list tf = false /\ yr = None.
Proof.
  unfold searcher._build_filters.
  destruct (py.truthy_opt af), (py.truthy_opt df), (searcher.truthy_list tf),
    yr as [[lo hi]|]; cbn [app]; split;
    try discriminate; try (intros (? & ? & ? & ?); discriminate);
    try (repeat split; reflexivity); reflexivity.
Qed.

(** *** The context handed to the model *)

Lemma embeds_prepend (ss : list string) (g t : string) :
  chunker_spec.embeds ss t -> chunker_spec.embeds ss (g +:+ t).
Proof.
  intros H. destruct H as [t | gap s ss t H]; [constructor |].
  rewrite <- chunker_props.append_assoc. now constructor.
Qed.

Lemma context_parts_embed (rs : list searcher.result) : forall k : nat,
  chunker_spec.embeds
    (map (fun r => py.fmt_opt (searcher.content r)) rs)
    (py.join nl
       (map (fun ir : nat * searcher.result =>
               "--- Source " +:+ py.str_of_int (Z.of_nat (fst ir) + 1) +:+ ": "
                 +:+ citation_of (snd ir) +:+ " ---" +:+ nl
                 +:+ py.fmt_opt (searcher.content (snd ir)) +:+ nl)
            (combine (seq k (length rs)) rs))).
Proof.
  induction rs as [|r rs IH]; intros k; [constructor |].
  cbn [length seq combine map fst snd].
  set (gap := "--- Source " +:+ py.str_of_int (Z.of_nat k + 1) +:+ ": "
                +:+ citation_of r +:+ " ---" +:+ nl).
  set (rest := map _ (combine (seq (S k) (length rs)) rs)).
  assert (Hpart : forall t,
             ("--- Source " +:+ py.str_of_int (Z.of_nat k + 1) +:+ ": "
                +:+ citation_of r +:+ " ---" +:+ nl
                +:+ py.fmt_opt (searcher.content r) +:+ nl) +:+ t
             = gap +:+ py.fmt_opt (searcher.content r) +:+ (nl +:+ t)).
  { intros t. unfold gap. now rewrite !chunker_props.append_assoc. }
  specialize (IH (S k)). fold rest in IH.
  destruct rest as [|x xs] eqn:Hrest.
  - unfold py.join. cbn [String.concat].
    pose proof (Hpart EmptyString) as Hone.
    rewrite !chunker_props.append_nil_r in Hone. rewrite Hone.
    constructor. destruct rs; [constructor |].
    unfold rest in Hrest. cbn [length seq combine map] in Hrest. discriminate Hrest.
  - rewrite chunker_props.join_cons_nonempty by discriminate.
    rewrite Hpart. constructor. now do 2 apply embeds_prepend.
Qed.

(** X17.  The context [_build_context] hands to the model holds the content
    of every retrieved result, whole and in rank order. *)
Theorem context_holds_every_result (results : list searcher.result) :
  chunker_spec.embeds
    (map (fun r => py.fmt_opt (searcher.content r)) results)
    (_build_context results).
Proof.
  destruct results as [|r rs]; [constructor |].
  exact (context_parts_embed (r :: rs) 0).
Qed.

End query_more.
